(** * SnapBackup: a shallow embedding of [snapback.py]

    [snapback.py] makes snapshot-style backups: [sync] seeds a new generation
    directory from the newest existing one with [cp -a -l] and mirrors the
    source into it with [rsync]; [rotate] removes all but the last [keep]
    generations; [main] guards both with a lock file and exits with the
    result of [sync].

    The embedding follows the script function by function.  The outside
    world is explicit:
    - the file system is a finite map from canonical path strings to node
      kinds; a path the script spells is looked up under its canonical
      spelling;
    - the answers of the operating system (platform name, lock acquisition,
      local time, what a launched command returns and does to the file
      system, which calls fail) come from an environment record [Env];
    - a call that fails raises an exception, which ends the function that
      made it and, uncaught, the run;
    - every externally visible action is appended to a trace.

    Logging calls do not influence control flow and are left out.  The
    command line is taken as already parsed ([Args]). *)

From Stdlib Require Import ZArith Ascii.
From stdpp Require Import base decidable option list sorting strings gmap fin_maps.

Local Open Scope Z_scope.

(** ** Strings as Python uses them *)

Module Str.

(** [s.rstrip(c)] for a one-character strip set: drop every trailing [c]. *)
Fixpoint rstrip (c : ascii) (s : string) : string :=
  match s with
  | EmptyString => EmptyString
  | String a r =>
      match rstrip c r with
      | EmptyString => if Ascii.eqb a c then EmptyString else String a EmptyString
      | r' => String a r'
      end
  end.

(** [s.startswith(p)] *)
Fixpoint startswith (p s : string) : bool :=
  match p, s with
  | EmptyString, _ => true
  | String a p', String b s' => Ascii.eqb a b && startswith p' s'
  | String _ _, EmptyString => false
  end.

(** [s.endswith(c)] for a single character. *)
Fixpoint endswith (c : ascii) (s : string) : bool :=
  match s with
  | EmptyString => false
  | String a EmptyString => Ascii.eqb a c
  | String _ r => endswith c r
  end.

(** Number of occurrences of [c] at the end of [s]. *)
Fixpoint trailing (c : ascii) (s : string) : nat :=
  match s with
  | EmptyString => 0%nat
  | String a r =>
      let n := trailing c r in
      if Ascii.eqb a c && Nat.eqb n (String.length r) then S n else n
  end.

(** [c.lower()] and [s.lower()] on ASCII. *)
Definition lower_ascii (c : ascii) : ascii :=
  let n := nat_of_ascii c in
  if (Nat.leb 65 n && Nat.leb n 90)%bool then ascii_of_nat (n + 32) else c.

Fixpoint lower (s : string) : string :=
  match s with
  | EmptyString => EmptyString
  | String a r => String (lower_ascii a) (lower r)
  end.

End Str.

(** ** Paths *)

Definition sep : ascii := "/"%char.

(** [os.path.join(a, b)] for two components (posixpath). *)
Definition os_path_join (a b : string) : string :=
  if Str.startswith "/" b then b
  else if (String.eqb a "" || Str.endswith sep a)%bool then a +:+ b
  else a +:+ "/" +:+ b.

(** Line 194 of [sync]: [source.rstrip("/") + "/"]. *)
Definition normalize_source (source : string) : string :=
  Str.rstrip sep source +:+ "/".

(** ** Local time and [time.strftime] *)

Record struct_time := {
  tm_year : Z;
  tm_mon  : Z;   (* 1..12 *)
  tm_mday : Z;   (* 1..31 *)
  tm_hour : Z;   (* 0..23 *)
  tm_min  : Z;   (* 0..59 *)
  tm_sec  : Z    (* 0..61 *)
}.

Definition digit (n : Z) : ascii := ascii_of_N (48 + Z.to_N (n mod 10)).

(** Two digits, zero padded. *)
Definition pad2 (n : Z) : string :=
  String (digit (n / 10)) (String (digit n) EmptyString).

(** Plain decimal rendering of a non-negative number. *)
Fixpoint decimal_go (fuel : nat) (n : Z) (acc : string) : string :=
  match fuel with
  | O => String (digit n) acc
  | S f => if n <? 10 then String (digit n) acc
           else decimal_go f (n / 10) (String (digit n) acc)
  end.

Definition decimal (n : Z) : string :=
  decimal_go (Z.to_nat (Z.log2 n)) n EmptyString.

(** Hour on the 12-hour clock, as [%I] prints it: 12, 1, ..., 11, 12, 1, ..., 11. *)
Definition hour12 (h : Z) : Z :=
  if h mod 12 =? 0 then 12 else h mod 12.

Definition directive (c : ascii) (t : struct_time) : string :=
  if Ascii.eqb c "Y" then decimal (tm_year t)
  else if Ascii.eqb c "m" then pad2 (tm_mon t)
  else if Ascii.eqb c "d" then pad2 (tm_mday t)
  else if Ascii.eqb c "H" then pad2 (tm_hour t)
  else if Ascii.eqb c "I" then pad2 (hour12 (tm_hour t))
  else if Ascii.eqb c "M" then pad2 (tm_min t)
  else if Ascii.eqb c "S" then pad2 (tm_sec t)
  else if Ascii.eqb c "%" then "%"
  else String "%" (String c EmptyString).

Fixpoint strftime (fmt : string) (t : struct_time) : string :=
  match fmt with
  | EmptyString => EmptyString
  | String a EmptyString => String a EmptyString
  | String a (String c r as r1) =>
      if Ascii.eqb a "%" then directive c t +:+ strftime r t
      else String a (strftime r1 t)
  end.

(** Chronological order of two local times of one time zone. *)
Fixpoint lex_ltb (l1 l2 : list Z) : bool :=
  match l1, l2 with
  | x :: r1, y :: r2 => (x <? y) || ((x =? y) && lex_ltb r1 r2)
  | _, _ => false
  end.

Definition tm_fields (t : struct_time) : list Z :=
  [tm_year t; tm_mon t; tm_mday t; tm_hour t; tm_min t; tm_sec t].

Definition earlier (t1 t2 : struct_time) : bool :=
  lex_ltb (tm_fields t1) (tm_fields t2).

Definition valid_time (t : struct_time) : bool :=
  (1000 <=? tm_year t) && (tm_year t <=? 9999)
  && (1 <=? tm_mon t) && (tm_mon t <=? 12)
  && (1 <=? tm_mday t) && (tm_mday t <=? 31)
  && (0 <=? tm_hour t) && (tm_hour t <=? 23)
  && (0 <=? tm_min t) && (tm_min t <=? 59)
  && (0 <=? tm_sec t) && (tm_sec t <=? 61).

(** ** Generation names *)

(** ["snapback_{}_{}_{}".format(name, timestamp, tag)] *)
Definition snapshot_name (name timestamp tag : string) : string :=
  "snapback_" +:+ name +:+ "_" +:+ timestamp +:+ "_" +:+ tag.

(** ["snapback_{}_*_{}".format(name, tag)] *)
Definition snapshot_pattern (name tag : string) : string :=
  "snapback_" +:+ name +:+ "_*_" +:+ tag.

(** [os.path.split(p)]: the part up to the last separator, without its
    trailing separators unless it consists of separators only, and the
    part after it. *)
Fixpoint split_go (s : string) : option (string * string) :=
  match s with
  | EmptyString => None
  | String a r =>
      match split_go r with
      | Some (h, t) => Some (String a h, t)
      | None => if Ascii.eqb a sep then Some (String a EmptyString, r) else None
      end
  end.

Definition os_path_split (p : string) : string * string :=
  match split_go p with
  | None => (EmptyString, p)
  | Some (h, t) =>
      (match Str.rstrip sep h with EmptyString => h | h' => h' end, t)
  end.

(** ** The file system and [glob] *)

Inductive node := File | Dir.

#[global] Instance node_eq_dec : EqDecision node.
Proof. solve_decision. Defined.

(** The keys are canonical paths: no repeated and no trailing separator.
    Components [.] and [..] and symbolic links are not interpreted. *)
Abbreviation FS := (gmap string node).

(** Runs of separators count as one. *)
Fixpoint squeeze (s : string) : string :=
  match s with
  | EmptyString => EmptyString
  | String a r =>
      if Ascii.eqb a sep && Str.startswith "/" r then squeeze r
      else String a (squeeze r)
  end.

(** The key under which a path is stored: runs of separators count as one
    and trailing separators do not count, except in a path made of
    separators only, which is the root. *)
Definition canon (path : string) : string :=
  match Str.rstrip sep (squeeze path) with
  | EmptyString => squeeze path
  | p => p
  end.

(** *** Shell patterns

    A pattern is read as [fnmatch] reads it: [*], [?], a bracket expression
    [[...]] or [[!...]] with single characters and ranges, and everything
    else for itself.  A bracket that is not closed within its path
    component stands for itself. *)

Inductive token :=
| Lit (c : ascii)
| Any
| Star
| Class (negated : bool) (members : string).

(** The text up to the closing bracket and the text after it; none when a
    separator or the end comes first. *)
Fixpoint find_close (s : string) : option (string * string) :=
  match s with
  | EmptyString => None
  | String c r =>
      if Ascii.eqb c "]" then Some (EmptyString, r)
      else if Ascii.eqb c sep then None
      else match find_close r with
           | Some (b, rest) => Some (String c b, rest)
           | None => None
           end
  end.

(** The bracket expression that starts after an opening bracket: whether it
    is negated, its members, and the pattern after it.  A closing bracket
    right at the start is a member. *)
Definition bracket (s : string) : option (bool * string * string) :=
  let '(neg, s1) :=
    match s with
    | String c r => if Ascii.eqb c "!" then (true, r) else (false, s)
    | EmptyString => (false, s)
    end in
  match s1 with
  | String c r =>
      if Ascii.eqb c "]" then
        match find_close r with
        | Some (b, rest) => Some (neg, String c b, rest)
        | None => None
        end
      else
        match find_close s1 with
        | Some (b, rest) => Some (neg, b, rest)
        | None => None
        end
  | EmptyString => None
  end.

(** [skip] characters of [s] belong to a bracket expression already read. *)
Fixpoint tokenize (skip : nat) (s : string) : list token :=
  match s with
  | EmptyString => []
  | String c r =>
      match skip with
      | S k => tokenize k r
      | O =>
          if Ascii.eqb c "*" then Star :: tokenize 0 r
          else if Ascii.eqb c "?" then Any :: tokenize 0 r
          else if Ascii.eqb c "[" then
            match bracket r with
            | Some (neg, members, rest) =>
                Class neg members :: tokenize (String.length r - String.length rest) r
            | None => Lit c :: tokenize 0 r
            end
          else Lit c :: tokenize 0 r
      end
  end.

Definition ascii_le (a b : ascii) : bool := (N_of_ascii a <=? N_of_ascii b)%N.

(** Membership in the members of a bracket expression: [lo-hi] is a range,
    any other character stands for itself.  A range whose ends are in the
    wrong order has no member. *)
Fixpoint in_class (members : string) (a : ascii) : bool :=
  match members with
  | EmptyString => false
  | String lo r =>
      match r with
      | String dash (String hi r') =>
          if Ascii.eqb dash "-" then (ascii_le lo a && ascii_le a hi) || in_class r' a
          else Ascii.eqb a lo || in_class r a
      | _ => Ascii.eqb a lo || in_class r a
      end
  end.

(** Matching a whole path name.  [*], [?] and bracket expressions stand for
    characters other than the separator.  [start] says that a path
    component starts here: a component that starts with a dot is matched
    only by a pattern component that starts with a dot. *)
Fixpoint match_tokens (ts : list token) : bool → string → bool :=
  match ts with
  | [] => λ _ s, match s with EmptyString => true | _ => false end
  | Lit c :: ts' =>
      λ _ s, match s with
             | EmptyString => false
             | String a s' => Ascii.eqb a c && match_tokens ts' (Ascii.eqb c sep) s'
             end
  | Any :: ts' =>
      λ start s, match s with
                 | EmptyString => false
                 | String a s' =>
                     negb (Ascii.eqb a sep) && negb (start && Ascii.eqb a ".")
                     && match_tokens ts' false s'
                 end
  | Class neg members :: ts' =>
      λ start s, match s with
                 | EmptyString => false
                 | String a s' =>
                     negb (Ascii.eqb a sep) && negb (start && Ascii.eqb a ".")
                     && xorb neg (in_class members a)
                     && match_tokens ts' false s'
                 end
  | Star :: ts' =>
      λ start s,
        negb (start && Str.startswith "." s)
        && (fix star (s : string) : bool :=
              match_tokens ts' false s ||
              match s with
              | EmptyString => false
              | String a s' => negb (Ascii.eqb a sep) && star s'
              end) s
  end.

Definition fnmatch (pat : string) (s : string) : bool :=
  match_tokens (tokenize 0 pat) true s.

(** Whether the entry stored under [p] is a match of [pathname]: repeated
    and trailing separators of the pattern do not count, and a pattern that
    ends in a separator matches directories only. *)
Definition glob_match (pathname : string) (fs : FS) (p : string) : bool :=
  fnmatch (canon pathname) p
  && (negb (Str.endswith sep pathname) || bool_decide (fs !! p = Some Dir)).

(** [glob.glob(pathname)]: the existing entries that match, in directory
    order.  Each match is reported under the spelling the file system
    stores it by. *)
Definition glob_glob (pathname : string) (fs : FS) : list string :=
  filter (λ p, glob_match pathname fs p = true) (elements (dom fs)).

(** [sorted(l)] on a list of strings.  Python compares strings code point
    by code point; on the byte strings used here that is the order
    [String.le] of [String.compare]. *)
Definition sorted (l : list string) : list string := merge_sort String.le l.

(** [l[:stop]] *)
Definition slice_to {A} (l : list A) (stop : Z) : list A :=
  let n := Z.of_nat (length l) in
  let stop' := if stop <? 0 then Z.max 0 (n + stop) else Z.min stop n in
  take (Z.to_nat stop') l.

(** [os.path.exists(path)]: the root is always there; a path with a
    trailing separator names a directory. *)
Definition os_path_exists (path : string) (fs : FS) : bool :=
  if String.eqb (canon path) "/" then true
  else match fs !! canon path with
       | Some Dir => true
       | Some File => negb (Str.endswith sep path)
       | None => false
       end.

Definition os_path_isdir (path : string) (fs : FS) : bool :=
  String.eqb (canon path) "/" || bool_decide (fs !! canon path = Some Dir).

(** The directories above a canonical path, outermost first. *)
Fixpoint ancestors_go (acc s : string) : list string :=
  match s with
  | EmptyString => []
  | String a r =>
      (if Ascii.eqb a sep && negb (String.eqb acc "") then [acc] else [])
        ++ ancestors_go (acc +:+ String a EmptyString) r
  end.

Definition ancestors (p : string) : list string := ancestors_go "" p.

(** The directory a new file is made in exists: it is the current
    directory, the root, or a directory of the file system. *)
Definition parent_is_dir (path : string) (fs : FS) : bool :=
  let d := (os_path_split (canon path)).1 in
  String.eqb d "" || String.eqb d "/" || bool_decide (fs !! d = Some Dir).

(** [q] is [p] or lies below [p]. *)
Definition is_under (p q : string) : bool :=
  String.eqb q p || Str.startswith (p +:+ "/") q.

Definition remove_subtree (p : string) (fs : FS) : FS :=
  filter (λ kv, is_under p kv.1 = false) fs.

(** The file system once every tree of [l] is removed, first to last. *)
Definition remove_all (l : list string) (fs : FS) : FS :=
  foldl (λ f p, remove_subtree p f) fs l.

(** Depth of a path: the number of separators in it. *)
Fixpoint count_sep (s : string) : nat :=
  match s with
  | EmptyString => 0%nat
  | String a r => if Ascii.eqb a sep then S (count_sep r) else count_sep r
  end.

(** Depth of a pattern: the number of separators it asks for. *)
Fixpoint depth (ts : list token) : nat :=
  match ts with
  | [] => 0%nat
  | Lit c :: ts' => if Ascii.eqb c sep then S (depth ts') else depth ts'
  | _ :: ts' => depth ts'
  end.

(** ** The environment, the world and the trace *)

(** An exception is identified by the call that raised it: the path (or
    the command) the failing call was given. *)
Inductive exn := OSError (path : string).

Inductive result (A : Type) :=
| Returned (a : A)
| Raised (e : exn).
Arguments Returned {A} a.
Arguments Raised {A} e.

#[global] Instance exn_eq_dec : EqDecision exn.
Proof. solve_decision. Defined.

#[global] Instance result_eq_dec {A} `{EqDecision A} : EqDecision (result A).
Proof. solve_decision. Defined.

Inductive event :=
| Launch (cmd_line : list string) (return_code : result Z)
                                     (* [subprocess.Popen] and [wait] *)
| Rmtree (path : string)             (* [shutil.rmtree], done *)
| RmtreeFailed (path : string)       (* [shutil.rmtree], raised *)
| Touched (path : string)            (* [touch], done *)
| TouchFailed (path : string)        (* [touch], raised *)
| Makedirs (path : string)           (* [os.makedirs], done *)
| MakedirsFailed (path : string)     (* [os.makedirs], raised *)
| Locked (path : string)             (* lock file opened and locked *)
| Removed (path : string)            (* [os.remove], done *)
| RemoveFailed (path : string).      (* [os.remove], raised *)

Record Env := {
  (** [platform.system()] *)
  platform_system : string;
  (** whether [open] and [fcntl.lockf] on the lock file go through *)
  lockf_ok : bool;
  (** the local time at the n-th reading of the clock *)
  time_localtime : nat → struct_time;
  (** what launching a command gives: the return code of the command, or
      the exception that ends the launch ([Popen] cannot start the command,
      its output cannot be read); and the file system it leaves *)
  popen_wait : list string → FS → result Z * FS;
  (** whether making this directory is refused, although its parent is a
      directory and it does not exist *)
  mkdir_raises : string → bool;
  (** whether opening this file for appending is refused, although its
      parent is a directory *)
  open_raises : string → bool;
  (** whether setting the times of this directory is refused *)
  utime_raises : string → bool;
  (** whether removing this directory tree raises *)
  rmtree_raises : string → bool;
  (** [rmtree_spares p q]: when removing the tree [p] raises, whether the
      entry [q] below it is still there *)
  rmtree_spares : string → string → bool;
  (** whether removing this file raises *)
  remove_raises : string → bool
}.

Record World := {
  fs : FS;
  clock : nat;
  trace : list event
}.

Definition emit (e : event) (w : World) : World :=
  {| fs := fs w; clock := clock w; trace := trace w ++ [e] |}.

Definition set_fs (f : FS) (w : World) : World :=
  {| fs := f; clock := clock w; trace := trace w |}.

(** One more reading of the clock. *)
Definition tick (w : World) : World :=
  {| fs := fs w; clock := S (clock w); trace := trace w |}.

(** A call: it returns a value or raises, and leaves a world. *)
Definition M (A : Type) : Type := World → result A * World.

Definition ret {A} (a : A) : M A := λ w, (Returned a, w).

Definition bind {A B} (m : M A) (k : A → M B) : M B :=
  λ w, match m w with
       | (Returned a, w') => k a w'
       | (Raised e, w') => (Raised e, w')
       end.

Notation "x <- m ;; k" := (bind m (λ x, k))
  (at level 100, m at next level, right associativity).
Notation "m ;;; k" := (bind m (λ _, k))
  (at level 100, right associativity).

(** [time.strftime(fmt)]: format the current local time. *)
Definition time_strftime (env : Env) (fmt : string) : M string :=
  λ w, (Returned (strftime fmt (time_localtime env (clock w))), tick w).

(** [os.mkdir(d)] on the file system: refused when [d] is there already,
    when its parent is no directory, or by the operating system. *)
Definition os_mkdir (env : Env) (d : string) (f : FS) : result unit * FS :=
  if String.eqb d "" || String.eqb d "/" || bool_decide (is_Some (f !! d))
     || negb (parent_is_dir d f) || mkdir_raises env d
  then (Raised (OSError d), f)
  else (Returned tt, <[d := Dir]> f).

(** The directories above the leaf, outermost first: the missing ones are
    made. *)
Fixpoint mkdir_missing (env : Env) (dirs : list string) (f : FS) : result unit * FS :=
  match dirs with
  | [] => (Returned tt, f)
  | d :: rest =>
      if bool_decide (is_Some (f !! d)) then mkdir_missing env rest f
      else match os_mkdir env d f with
           | (Returned _, f') => mkdir_missing env rest f'
           | (Raised e, f') => (Raised e, f')
           end
  end.

(** [os.makedirs(path)] as the script calls it (no [exist_ok]): the missing
    directories above [path] are made, then [path] itself, which must not
    be there.  What was made before a failure stays. *)
Definition os_makedirs (env : Env) (path : string) : M unit :=
  λ w,
    match mkdir_missing env (ancestors (canon path)) (fs w) with
    | (Returned _, f) =>
        match os_mkdir env (canon path) f with
        | (Returned _, f') => (Returned tt, emit (Makedirs path) (set_fs f' w))
        | (Raised e, f') => (Raised e, emit (MakedirsFailed path) (set_fs f' w))
        end
    | (Raised e, f) => (Raised e, emit (MakedirsFailed path) (set_fs f w))
    end.

(** What is left of the tree [path] when its removal raises: the directory
    itself and the entries below it that were spared. *)
Definition remove_partly (env : Env) (path : string) (f : FS) : FS :=
  filter (λ kv, is_under path kv.1 = false ∨ kv.1 = path
                ∨ rmtree_spares env path kv.1 = true) f.

(** [shutil.rmtree(path)] as [rotate] calls it (no [ignore_errors], no
    [onerror]): errors are raised.  A removal that raises has removed part
    of the tree. *)
Definition shutil_rmtree (env : Env) (path : string) : M unit :=
  λ w,
    match fs w !! path with
    | Some Dir =>
        if rmtree_raises env path
        then (Raised (OSError path),
              emit (RmtreeFailed path) (set_fs (remove_partly env path (fs w)) w))
        else (Returned tt, emit (Rmtree path) (set_fs (remove_subtree path (fs w)) w))
    | _ => (Raised (OSError path), emit (RmtreeFailed path) w)
    end.

(** [os.remove(lock_file)].  The lock file lives outside the modelled part
    of the file system. *)
Definition os_remove (env : Env) (path : string) : M unit :=
  λ w,
    if remove_raises env path
    then (Raised (OSError path), emit (RemoveFailed path) w)
    else (Returned tt, emit (Removed path) w).

(** ** The script *)

(** [launch_command(cmd_line)], lines 105-123.  [Popen] raises when the
    command cannot be started. *)
Definition launch_command (env : Env) (cmd_line : list string) : M Z :=
  λ w,
    let '(return_code, f) := popen_wait env cmd_line (fs w) in
    (return_code, emit (Launch cmd_line return_code) (set_fs f w)).

(** [touch(path)], lines 126-138.  Modification times are not part of the
    file system model.  A directory has its times set.  Anything else is
    opened for appending, which makes a missing file and raises when the
    path ends in a separator or its parent is no directory. *)
Definition touch (env : Env) (path : string) : M unit :=
  λ w,
    if os_path_isdir path (fs w) then
      if utime_raises env path
      then (Raised (OSError path), emit (TouchFailed path) w)
      else (Returned tt, emit (Touched path) w)
    else
      if Str.endswith sep path || String.eqb path ""
         || negb (parent_is_dir path (fs w)) || open_raises env path
      then (Raised (OSError path), emit (TouchFailed path) w)
      else (Returned tt,
            emit (Touched path) (set_fs (<[canon path := File]> (fs w)) w)).

(** The [for] loop of [rotate], lines 158-160. *)
Fixpoint rmtree_each (env : Env) (delete_list : list string) : M unit :=
  match delete_list with
  | [] => ret tt
  | snapshot :: rest =>
      shutil_rmtree env snapshot ;;;
      rmtree_each env rest
  end.

(** [rotate(dest, name, tag, keep)], lines 141-160. *)
Definition rotate (env : Env) (dest name tag : string) (keep : Z) : M unit :=
  λ w,
    if keep <? 1 then ret tt w
    else
      let search_glob := os_path_join dest (snapshot_pattern name tag) in
      let snapshots_list := sorted (glob_glob search_glob (fs w)) in
      let delete_list := slice_to snapshots_list (- keep) in
      rmtree_each env delete_list w.

(** The [rsync] command line, lines 201-207. *)
Definition rsync_cmd_line (excludes : list string) (source current_snapshot : string)
  : list string :=
  ["rsync"; "-va"; "--human-readable"; "--delete"; "--delete-excluded"]
    ++ map (λ exclude, "--exclude=" +:+ exclude) excludes
    ++ [source; current_snapshot].

(** Lines 198-199 of [sync]: [dest] is made if it is missing. *)
Definition before_mirror (env : Env) (dest : string) : M unit :=
  λ w, if negb (os_path_exists dest (fs w)) then os_makedirs env dest w else ret tt w.

(** Lines 192-221 of [sync]: everything after the copy-link step. *)
Definition sync_mirror (env : Env) (source dest : string) (excludes : list string)
    (current_snapshot : string) : M Z :=
  let source := normalize_source source in
  let current_snapshot := current_snapshot +:+ "/" in
  before_mirror env dest ;;;
  let cmd_line := rsync_cmd_line excludes source current_snapshot in
  result <- launch_command env cmd_line ;;
  if result >? 0 then ret result
  else
    touch env current_snapshot ;;;
    date <- time_strftime env "%Y%m%d_%I%M%S" ;;
    let date_file := os_path_join current_snapshot ("_backup_" +:+ date) in
    touch env date_file ;;;
    ret 0.

(** [sync(source, dest, name, tag, excludes)], lines 163-221. *)
Definition sync (env : Env) (source dest name tag : string) (excludes : list string)
  : M Z :=
  timestamp <- time_strftime env "%Y%m%d%I%M%S" ;;
  let current_snapshot := os_path_join dest (snapshot_name name timestamp tag) in
  let search_glob := os_path_join dest (snapshot_pattern name tag) in
  λ w,
    let snapshots_list := sorted (glob_glob search_glob (fs w)) in
    match last snapshots_list with
    | Some last_snapshot =>
        let cmd_line := ["cp"; "-a"; "-l"; last_snapshot; current_snapshot] in
        (result <- launch_command env cmd_line ;;
         if result >? 0 then ret result
         else sync_mirror env source dest excludes current_snapshot) w
    | None => sync_mirror env source dest excludes current_snapshot w
    end.

(** The parsed command line, lines 37-45. *)
Record Args := {
  args_name : string;
  args_tag : string;
  args_keep : Z;
  args_excludes : list string;
  args_source : string;
  args_dest : string
}.

(** How the process ends: [sys.exit(code)] or an uncaught exception. *)
Inductive outcome :=
| Exit (code : Z)
| Uncaught (e : exn).

(** The exit status: the argument of [sys.exit] (the return codes that reach
    it lie between 0 and 255, so the operating system passes them on as
    they are); the interpreter turns an uncaught exception into status 1. *)
Definition exit_status (o : outcome) : Z :=
  match o with
  | Exit code => code
  | Uncaught _ => 1
  end.

Definition lock_file_of (name : string) : string :=
  "/tmp/snapback_" +:+ name +:+ ".lock".

(** Lines 69-81 of [main]: the two phases, the removal of the lock file and
    the exit.  Nothing catches an exception. *)
Definition main_phases (env : Env) (args : Args) (w : World) : outcome * World :=
  match sync env (args_source args) (args_dest args) (args_name args)
          (args_tag args) (args_excludes args) w with
  | (Raised e, w) => (Uncaught e, w)
  | (Returned res, w) =>
      match rotate env (args_dest args) (args_name args) (args_tag args)
              (args_keep args) w with
      | (Raised e, w) => (Uncaught e, w)
      | (Returned _, w) =>
          match os_remove env (lock_file_of (args_name args)) w with
          | (Raised e, w) => (Uncaught e, w)
          | (Returned _, w) => (Exit res, w)
          end
      end
  end.

(** [main()], lines 31-81. *)
Definition main (env : Env) (args : Args) (w : World) : outcome * World :=
  if negb (String.eqb (Str.lower (platform_system env)) "linux") then (Exit 1, w)
  else
    let lock_file := lock_file_of (args_name args) in
    if negb (lockf_ok env) then (Exit 1, w)
    else
      let w := emit (Locked lock_file) w in
      if negb (os_path_exists (args_dest args) (fs w)) then
        match os_makedirs env (args_dest args) w with
        | (Raised e, w) => (Uncaught e, w)
        | (Returned _, w) => main_phases env args w
        end
      else if negb (os_path_isdir (args_dest args) (fs w)) then (Exit 1, w)
      else main_phases env args w.

(** ** Vocabulary for the statements *)

(** The enumeration that [sync] (lines 181-182) and [rotate] (lines 154-155)
    both compute: the existing generations of (name, tag), ascending. *)
Definition generations (dest name tag : string) (f : FS) : list string :=
  sorted (glob_glob (os_path_join dest (snapshot_pattern name tag)) f).

(** Removing the directory tree [p] goes through. *)
Definition removable (env : Env) (f : FS) (p : string) : Prop :=
  f !! p = Some Dir ∧ rmtree_raises env p = false.

#[global] Instance removable_dec env f p : Decision (removable env f p).
Proof. unfold removable. apply _. Defined.

(** No member of the list lies below another one. *)
Definition unnested (l : list string) : Prop :=
  ∀ p q, p ∈ l → q ∈ l → is_under p q = true → q = p.

(** The name [sync] gives the generation it builds in world [w]
    (lines 177-179). *)
Definition new_snapshot (env : Env) (dest name tag : string) (w : World) : string :=
  os_path_join dest
    (snapshot_name name (strftime "%Y%m%d%I%M%S" (time_localtime env (clock w))) tag).

(** The copy-link command line (line 186). *)
Definition cp_cmd_line (last_snapshot current_snapshot : string) : list string :=
  ["cp"; "-a"; "-l"; last_snapshot; current_snapshot].

(** The event is a launch of the copy-link command. *)
Definition is_clone (e : event) : bool :=
  match e with
  | Launch (cmd :: _) _ => String.eqb cmd "cp"
  | _ => false
  end.

(** The event is a launch of the mirroring command. *)
Definition is_mirror (e : event) : bool :=
  match e with
  | Launch (cmd :: _) _ => String.eqb cmd "rsync"
  | _ => false
  end.

(** Neither a copy-link nor a mirroring launch. *)
Definition quiet (e : event) : Prop := is_clone e = false ∧ is_mirror e = false.

(** The run gets past its three guards (lines 33-67): Linux host, lock
    acquired, and a destination that is a directory or does not exist yet. *)
Definition guards_pass (env : Env) (args : Args) (w : World) : Prop :=
  Str.lower (platform_system env) = "linux"
  ∧ lockf_ok env = true
  ∧ (os_path_exists (args_dest args) (fs w) = true
     → os_path_isdir (args_dest args) (fs w) = true).

(** The lock is taken and the destination looked after (lines 53-64): what
    [os.makedirs] answers when the destination is missing. *)
Definition prepare_dest (env : Env) (args : Args) (w : World) : result unit * World :=
  before_mirror env (args_dest args) (emit (Locked (lock_file_of (args_name args))) w).

(** The destination is there or has been made: [os.makedirs] did not
    raise. *)
Definition dest_ready (env : Env) (args : Args) (w : World) : Prop :=
  (prepare_dest env args w).1 = Returned tt.

#[global] Instance dest_ready_dec env args w : Decision (dest_ready env args w).
Proof. unfold dest_ready. apply _. Defined.

(** The world in which [main] calls [sync] (line 70). *)
Definition at_sync (env : Env) (args : Args) (w : World) : World :=
  (prepare_dest env args w).2.

(** The call of [sync] that [main] makes (line 70). *)
Definition sync_of_run (env : Env) (args : Args) (w : World) : result Z * World :=
  sync env (args_source args) (args_dest args) (args_name args) (args_tag args)
    (args_excludes args) (at_sync env args w).

(** The call of [rotate] that [main] makes (line 72) when [sync] has
    returned. *)
Definition rotate_of_run (env : Env) (args : Args) (w : World) : result unit * World :=
  rotate env (args_dest args) (args_name args) (args_tag args) (args_keep args)
    (sync_of_run env args w).2.

(** The character has a special meaning in a shell pattern. *)
Definition is_magic (a : ascii) : bool :=
  Ascii.eqb a "*" || Ascii.eqb a "?" || Ascii.eqb a "[".

(** No character of the string has a special meaning in a shell pattern. *)
Fixpoint plain (s : string) : bool :=
  match s with
  | EmptyString => true
  | String a r => negb (is_magic a) && plain r
  end.

(** The string is a word of a generation name: no separator in it and no
    character with a special meaning in a shell pattern. *)
Fixpoint word (s : string) : bool :=
  match s with
  | EmptyString => true
  | String a r => negb (Ascii.eqb a sep) && negb (is_magic a) && word r
  end.

(** A destination as it is usually spelled: no character with a special
    meaning in a shell pattern and no repeated separators. *)
Definition tidy (dest : string) : bool :=
  plain dest && String.eqb (squeeze dest) dest.

(** The pattern that stands for the string itself, character by
    character. *)
Fixpoint lits (s : string) : list token :=
  match s with
  | EmptyString => []
  | String a r => Lit a :: lits r
  end.

(** Whether a path component starts after the string [s], when [start]
    says whether one starts before it. *)
Definition starts_after (s : string) (start : bool) : bool :=
  match s with
  | EmptyString => start
  | _ => Str.endswith sep s
  end.

(** ** Sample runs

    Concrete environments and worlds on which the statements below are
    evaluated. *)

Definition at_hour (h : Z) : struct_time :=
  {| tm_year := 2024; tm_mon := 1; tm_mday := 1;
     tm_hour := h; tm_min := 0; tm_sec := 0 |}.

(** The last argument of a command line is the directory it writes. *)
Definition target (cmd_line : list string) : string :=
  canon (default "" (last cmd_line)).

Definition never : string → bool := λ _, false.

(** What the sample commands do: [cp] and [rsync] return the given codes;
    a [cp] that returns 0 has created its target; [rsync] creates its
    target before it transfers anything; no other command is installed. *)
Definition sample_popen (cp_code rsync_code : Z) (cmd_line : list string) (f : FS)
  : result Z * FS :=
  match cmd_line with
  | cmd :: _ =>
      if String.eqb cmd "cp" then
        (Returned cp_code, if cp_code =? 0 then <[target cmd_line := Dir]> f else f)
      else if String.eqb cmd "rsync" then
        (Returned rsync_code, <[target cmd_line := Dir]> f)
      else (Raised (OSError cmd), f)
  | [] => (Raised (OSError ""), f)
  end.

(** An environment on a Linux host with the lock free, the local time
    fixed, [cp] and [rsync] returning the given codes, and the tree removals
    that raise given by [raises]; a removal that raises has emptied the
    tree.  No other call is refused. *)
Definition sample_env (now : struct_time) (cp_code rsync_code : Z)
    (raises : string → bool) : Env :=
  {| platform_system := "Linux";
     lockf_ok := true;
     time_localtime := λ _, now;
     popen_wait := sample_popen cp_code rsync_code;
     mkdir_raises := never;
     open_raises := never;
     utime_raises := never;
     rmtree_raises := raises;
     rmtree_spares := λ _ _, false;
     remove_raises := never |}.

(** A destination [/snap] with three generations of (["home"], ["daily"]),
    made at 08:00, 09:00 and 10:00, and one unrelated entry. *)
Definition sample_fs : FS :=
  list_to_map
    [("/snap", Dir);
     ("/snap/snapback_home_20240101080000_daily", Dir);
     ("/snap/snapback_home_20240101080000_daily/notes.txt", File);
     ("/snap/snapback_home_20240101090000_daily", Dir);
     ("/snap/snapback_home_20240101100000_daily", Dir);
     ("/snap/lost+found", Dir)].

Definition sample_world : World :=
  {| fs := sample_fs; clock := 0; trace := [] |}.

(** An empty destination. *)
Definition empty_world : World :=
  {| fs := {["/snap" := Dir]}; clock := 0; trace := [] |}.

Definition sample_args (keep : Z) : Args :=
  {| args_name := "home"; args_tag := "daily"; args_keep := keep;
     args_excludes := ["*.tmp"]; args_source := "/home/";
     args_dest := "/snap" |}.

(** Removing the oldest sample generation raises. *)
Definition oldest_locked : string → bool :=
  String.eqb "/snap/snapback_home_20240101080000_daily".

(** Removing the second sample generation raises. *)
Definition second_locked : string → bool :=
  String.eqb "/snap/snapback_home_20240101090000_daily".

Definition gen08 : string := "/snap/snapback_home_20240101080000_daily".
Definition gen09 : string := "/snap/snapback_home_20240101090000_daily".
Definition gen10 : string := "/snap/snapback_home_20240101100000_daily".
Definition gen11 : string := "/snap/snapback_home_20240101110000_daily".

(** The name of a generation made at 13:00. *)
Definition gen13 : string := "/snap/snapback_home_20240101010000_daily".

(** A run at 11:00 in which nothing fails. *)
Definition env_all_well : Env := sample_env (at_hour 11) 0 0 never.

(** A run at 11:00 in which [rsync] returns 23 (partial transfer). *)
Definition env_mirror_fails : Env := sample_env (at_hour 11) 0 23 never.

(** A run at 11:00 in which [rsync] is killed by signal 9. *)
Definition env_mirror_killed : Env := sample_env (at_hour 11) 0 (-9) never.

(** A run at 11:00 in which [cp] is killed by signal 9. *)
Definition env_clone_killed : Env := sample_env (at_hour 11) (-9) 0 never.

(** A run at 11:00 in which the oldest generation cannot be removed. *)
Definition env_removal_fails : Env := sample_env (at_hour 11) 0 0 oldest_locked.

(** A run at 11:00 in which the second generation cannot be removed. *)
Definition env_second_removal_fails : Env := sample_env (at_hour 11) 0 0 second_locked.

(** A run at 13:00 in which nothing fails. *)
Definition env_afternoon : Env := sample_env (at_hour 13) 0 0 never.

(** A run at 10:00 in which nothing fails. *)
Definition env_morning : Env := sample_env (at_hour 10) 0 0 never.

(** The destination after a first run at 10:00 and a second one at 13:00
    of the same day, both without rotation. *)
Definition two_runs_world : World :=
  (main env_afternoon (sample_args 0) (main env_morning (sample_args 0) empty_world).2).2.

(** A destination [/snap] that is a regular file. *)
Definition file_world : World :=
  {| fs := {["/snap" := File]}; clock := 0; trace := [] |}.

(** The sample arguments with the destination spelled [/snap/]. *)
Definition slash_args : Args :=
  {| args_name := "home"; args_tag := "daily"; args_keep := 0;
     args_excludes := []; args_source := "/home/";
     args_dest := "/snap/" |}.

(** The sample arguments with a destination below [/snap]. *)
Definition below_args : Args :=
  {| args_name := "home"; args_tag := "daily"; args_keep := 1;
     args_excludes := []; args_source := "/home/";
     args_dest := "/snap/x" |}.

(** ** Vocabulary for the naming scheme and the traces *)

(** The fields of a local time in the order the timestamp of a generation
    name prints them (line 177): the hour is the one on the 12-hour clock. *)
Definition printed_fields (t : struct_time) : list Z :=
  [tm_year t; tm_mon t; tm_mday t; hour12 (tm_hour t); tm_min t; tm_sec t].

(** The calendar day of a local time. *)
Definition date_fields (t : struct_time) : list Z :=
  [tm_year t; tm_mon t; tm_mday t].

(** The same local time with another hour. *)
Definition with_hour (h : Z) (t : struct_time) : struct_time :=
  {| tm_year := tm_year t; tm_mon := tm_mon t; tm_mday := tm_mday t;
     tm_hour := h; tm_min := tm_min t; tm_sec := tm_sec t |}.

(** The character is a decimal digit. *)
Definition is_digit (a : ascii) : bool :=
  (48 <=? N_of_ascii a)%N && (N_of_ascii a <=? 57)%N.

Fixpoint all_digits (s : string) : bool :=
  match s with
  | EmptyString => true
  | String a r => is_digit a && all_digits r
  end.

(** A local time on a day of January 2024, on the hour. *)
Definition on_day (d h : Z) : struct_time :=
  {| tm_year := 2024; tm_mon := 1; tm_mday := d;
     tm_hour := h; tm_min := 0; tm_sec := 0 |}.

(** The event is a call of [touch] that returned. *)
Definition is_touch (e : event) : bool :=
  match e with
  | Touched _ => true
  | _ => false
  end.

(** A destination in which generations of other lineages lie beside those
    of (["home"], ["daily"]): one of tag ["pre_daily"] and one of name
    ["home_db"]. *)
Definition mixed_fs : FS :=
  list_to_map
    [("/snap", Dir);
     ("/snap/snapback_home_20240101080000_daily", Dir);
     ("/snap/snapback_home_20240101090000_pre_daily", Dir);
     ("/snap/snapback_home_db_20240101100000_daily", Dir)].

(** A run at 11:00 in which the launched commands return 0 and leave the
    file system as it is. *)
Definition env_inert : Env :=
  {| platform_system := "Linux";
     lockf_ok := true;
     time_localtime := λ _, at_hour 11;
     popen_wait := λ _ f, (Returned 0, f);
     mkdir_raises := never;
     open_raises := never;
     utime_raises := never;
     rmtree_raises := never;
     rmtree_spares := λ _ _, false;
     remove_raises := never |}.

(** A host that is not Linux. *)
Definition env_other_host : Env :=
  {| platform_system := "Darwin";
     lockf_ok := true;
     time_localtime := λ _, at_hour 11;
     popen_wait := λ _ f, (Returned 0, f);
     mkdir_raises := never;
     open_raises := never;
     utime_raises := never;
     rmtree_raises := never;
     rmtree_spares := λ _ _, false;
     remove_raises := never |}.

(** A run at 11:00 in which [cp] returns 1. *)
Definition env_clone_fails : Env := sample_env (at_hour 11) 1 0 never.

(** A destination with a generation of the name ["a[b]"] and one of the
    name ["ab"]. *)
Definition bracket_fs : FS :=
  list_to_map
    [("/snap", Dir);
     ("/snap/snapback_a[b]_20240101080000_daily", Dir);
     ("/snap/snapback_ab_20240101080000_daily", Dir)].

Definition bracket_world : World :=
  {| fs := bracket_fs; clock := 0; trace := [] |}.

(** ** Proof steps *)

(** The hypothesis says that an event is a member of an explicit list to
    which it does not belong. *)
Ltac not_in H :=
  repeat (apply elem_of_cons in H as [H|H]; [congruence|]);
  by apply elem_of_nil in H.

(** * Properties *)

(** ** Strings *)

Section string_facts.
Implicit Types (s t : string) (c a : ascii).

Lemma append_cons a s t : String a s +:+ t = String a (s +:+ t).
Proof. reflexivity. Qed.

Lemma append_assoc s t u : (s +:+ t) +:+ u = s +:+ t +:+ u.
Proof.
  induction s as [|a s IH]; [done|].
  by rewrite !append_cons, IH.
Qed.

Lemma rstrip_not_endswith c s : Str.endswith c (Str.rstrip c s) = false.
Proof.
  induction s as [|a s IH]; simpl; [done|].
  destruct (Str.rstrip c s) as [|b r] eqn:E.
  - destruct (Ascii.eqb a c) eqn:Ea; simpl; [done | by rewrite Ea].
  - exact IH.
Qed.

Lemma rstrip_snoc c s : Str.rstrip c (s +:+ String c "") = Str.rstrip c s.
Proof.
  induction s as [|a s IH].
  - simpl. by rewrite Ascii.eqb_refl.
  - rewrite append_cons. simpl. by rewrite IH.
Qed.

Lemma rstrip_fixed c s : Str.endswith c s = false → Str.rstrip c s = s.
Proof.
  induction s as [|a s IH]; simpl; [done|].
  destruct s as [|b r].
  - simpl. by intros ->.
  - intros H. rewrite (IH H). done.
Qed.

Lemma rstrip_idem c s : Str.rstrip c (Str.rstrip c s) = Str.rstrip c s.
Proof. apply rstrip_fixed, rstrip_not_endswith. Qed.

Lemma trailing_snoc c s :
  Str.endswith c s = false → Str.trailing c (s +:+ String c "") = 1%nat.
Proof.
  induction s as [|a s IH].
  - simpl. by rewrite Ascii.eqb_refl.
  - rewrite append_cons. destruct s as [|b r].
    + simpl. rewrite Ascii.eqb_refl. simpl. by intros ->.
    + intros H. cbn [Str.trailing]. rewrite (IH H).
      rewrite append_cons. simpl.
      destruct r; simpl; by rewrite andb_false_r.
Qed.
End string_facts.

(** C10. The normalisation of the source path in [sync] yields a string
    that ends in exactly one separator (some body without a trailing
    separator followed by one ["/"]; the count of trailing separators is 1),
    it is idempotent, and it sends both ["/"] and the empty string to ["/"]. *)
Theorem normalize_source_one_trailing_sep (source : string) :
  (∃ body, normalize_source source = body +:+ "/" ∧ Str.endswith sep body = false)
  ∧ Str.trailing sep (normalize_source source) = 1%nat
  ∧ normalize_source (normalize_source source) = normalize_source source
  ∧ normalize_source "/" = "/"
  ∧ normalize_source "" = "/".
Proof.
  unfold normalize_source. repeat split.
  - exists (Str.rstrip sep source). split; [done | apply rstrip_not_endswith].
  - apply trailing_snoc, rstrip_not_endswith.
  - change "/" with (String sep "") at 2. by rewrite rstrip_snoc, rstrip_idem.
Qed.

(** ** Sorting and enumeration *)

Section sorted_facts.
Implicit Types (l : list string) (p q pat : string) (f : FS).

Lemma sorted_Permutation l : sorted l ≡ₚ l.
Proof. apply merge_sort_Permutation. Qed.

Lemma sorted_StronglySorted l : StronglySorted String.le (sorted l).
Proof. apply (StronglySorted_merge_sort String.le). Qed.

Lemma elem_of_sorted p l : p ∈ sorted l ↔ p ∈ l.
Proof. by rewrite sorted_Permutation. Qed.

Lemma length_sorted l : length (sorted l) = length l.
Proof. by rewrite sorted_Permutation. Qed.

Lemma NoDup_sorted l : NoDup l → NoDup (sorted l).
Proof. by rewrite sorted_Permutation. Qed.

Lemma sorted_nil l : sorted l = [] ↔ l = [].
Proof.
  split; [|by intros ->].
  intros H. apply Permutation_nil. by rewrite <- (sorted_Permutation l), H.
Qed.

(** A strongly sorted list is the sorted enumeration of its members. *)
Lemma sorted_unique l1 l2 :
  StronglySorted String.le l1 → l1 ≡ₚ l2 → sorted l2 = l1.
Proof.
  intros Hs Hp. apply (StronglySorted_unique String.le).
  - apply sorted_StronglySorted.
  - done.
  - by rewrite sorted_Permutation.
Qed.

Lemma last_sorted_max l m :
  last (sorted l) = Some m → m ∈ l ∧ ∀ p, p ∈ l → String.le p m.
Proof.
  intros Hl. split.
  { apply elem_of_sorted. by apply last_Some_elem_of. }
  intros p Hp. apply elem_of_sorted in Hp.
  apply last_Some in Hl as [l' Hl].
  pose proof (sorted_StronglySorted l) as Hs. rewrite Hl in Hs, Hp.
  apply elem_of_app in Hp as [Hp|Hp].
  - eapply StronglySorted_app_1_elem_of; [done..|]. by left.
  - apply list_elem_of_singleton in Hp as ->. done.
Qed.

Lemma StronglySorted_drop n l :
  StronglySorted String.le l → StronglySorted String.le (drop n l).
Proof.
  intros Hs. rewrite <- (take_drop n l) in Hs.
  by apply StronglySorted_app_1_r in Hs.
Qed.

Lemma elem_of_glob_glob pat f p :
  p ∈ glob_glob pat f ↔ is_Some (f !! p) ∧ glob_match pat f p = true.
Proof.
  unfold glob_glob. rewrite list_elem_of_filter, elem_of_elements, elem_of_dom.
  tauto.
Qed.

Lemma NoDup_glob_glob pat f : NoDup (glob_glob pat f).
Proof. apply NoDup_filter, NoDup_elements. Qed.

Lemma glob_match_fnmatch pat f p :
  glob_match pat f p = true → fnmatch (canon pat) p = true.
Proof. unfold glob_match. by intros [H _]%andb_true_iff. Qed.

(** Whether an entry matches depends on the file system through that entry
    only. *)
Lemma glob_match_lookup pat f f' p :
  f' !! p = f !! p → glob_match pat f' p = glob_match pat f p.
Proof. unfold glob_match. by intros ->. Qed.
End sorted_facts.

(** ** Depth of matching paths *)

Section depth_facts.
Implicit Types (s p q pat : string) (ts : list token).

Lemma match_tokens_count_sep ts start s :
  match_tokens ts start s = true → count_sep s = depth ts.
Proof.
  revert start s. induction ts as [|t ts IH]; intros start s.
  { destruct s; simpl; [done|discriminate]. }
  destruct t as [c| | |neg members]; cbn [match_tokens depth].
  - destruct s as [|a s]; [done|].
    intros [Ha H]%andb_true_iff. apply Ascii.eqb_eq in Ha as ->.
    cbn [count_sep]. by rewrite (IH _ _ H).
  - destruct s as [|a s]; [done|].
    intros [[Ha _]%andb_true_iff H]%andb_true_iff. cbn [count_sep].
    destruct (Ascii.eqb a sep); [done|]. by apply IH in H.
  - intros [_ H]%andb_true_iff. revert H.
    induction s as [|a s IHs].
    + rewrite orb_false_r. apply IH.
    + intros [H|H]%orb_true_iff; [by apply IH in H|].
      apply andb_true_iff in H as [Ha H]. cbn [count_sep].
      destruct (Ascii.eqb a sep); [done|]. by apply IHs.
  - destruct s as [|a s]; [done|].
    intros [[[Ha _]%andb_true_iff _]%andb_true_iff H]%andb_true_iff.
    cbn [count_sep].
    destruct (Ascii.eqb a sep); [done|]. by apply IH in H.
Qed.

Lemma fnmatch_count_sep pat s :
  fnmatch pat s = true → count_sep s = depth (tokenize 0 pat).
Proof. apply match_tokens_count_sep. Qed.

Lemma count_sep_app s t : count_sep (s +:+ t) = (count_sep s + count_sep t)%nat.
Proof.
  induction s as [|a s IH]; [done|].
  rewrite append_cons. cbn [count_sep]. rewrite IH.
  by destruct (Ascii.eqb a sep).
Qed.

Lemma startswith_count_sep p q :
  Str.startswith p q = true → (count_sep p ≤ count_sep q)%nat.
Proof.
  revert q. induction p as [|a p IH]; intros [|b q]; simpl; try done; try lia.
  intros [Ha H]%andb_true_iff. apply Ascii.eqb_eq in Ha as ->.
  specialize (IH _ H). destruct (Ascii.eqb b sep); lia.
Qed.

Lemma is_under_refl p : is_under p p = true.
Proof. unfold is_under. by rewrite String.eqb_refl. Qed.

(** Below a path means strictly deeper. *)
Lemma is_under_same_depth p q :
  is_under p q = true → count_sep q = count_sep p → q = p.
Proof.
  unfold is_under. intros [H|H]%orb_true_iff Hc.
  - by apply String.eqb_eq.
  - apply startswith_count_sep in H. rewrite count_sep_app in H.
    change (count_sep "/") with 1%nat in H. lia.
Qed.

Lemma is_under_matching pat p q :
  fnmatch pat p = true → fnmatch pat q = true → is_under p q = true → q = p.
Proof.
  intros Hp Hq Hu. apply is_under_same_depth; [done|].
  by rewrite (fnmatch_count_sep pat p), (fnmatch_count_sep pat q).
Qed.
End depth_facts.

(** ** Removing trees *)

Section removal_facts.
Implicit Types (l : list string) (p q : string) (f : FS).

Lemma lookup_remove_subtree p q f :
  remove_subtree p f !! q = if is_under p q then None else f !! q.
Proof.
  unfold remove_subtree. destruct (is_under p q) eqn:E.
  - apply map_lookup_filter_None. right. intros x _. simpl. by rewrite E.
  - destruct (f !! q) as [x|] eqn:Ef.
    + by apply map_lookup_filter_Some.
    + apply map_lookup_filter_None. by left.
Qed.

Lemma lookup_remove_all l q f :
  remove_all l f !! q = if existsb (λ p, is_under p q) l then None else f !! q.
Proof.
  revert f. induction l as [|p l IH]; intros f; [done|].
  cbn [remove_all foldl existsb]. fold (remove_all l (remove_subtree p f)).
  rewrite IH, lookup_remove_subtree.
  destruct (is_under p q); simpl; [|done].
  by destruct (existsb _ l).
Qed.

Lemma lookup_remove_all_outside l q f :
  (∀ p, p ∈ l → is_under p q = false) → remove_all l f !! q = f !! q.
Proof.
  intros H. rewrite lookup_remove_all.
  destruct (existsb _ l) eqn:E; [|done].
  apply existsb_exists in E as (p & Hp & Hu).
  rewrite (H p) in Hu; [done|]. by apply list_elem_of_In.
Qed.

Lemma lookup_remove_all_inside l p q f :
  p ∈ l → is_under p q = true → remove_all l f !! q = None.
Proof.
  intros Hp Hu. rewrite lookup_remove_all.
  destruct (existsb _ l) eqn:E; [done|].
  assert (existsb (λ p, is_under p q) l = true) as E'; [|congruence].
  apply existsb_exists. exists p. split; [by apply list_elem_of_In|done].
Qed.

Lemma remove_all_snoc l p f :
  remove_all (l ++ [p]) f = remove_subtree p (remove_all l f).
Proof. unfold remove_all. by rewrite foldl_app. Qed.

Lemma remove_all_subseteq l f : remove_all l f ⊆ f.
Proof.
  revert f. induction l as [|p l IH]; intros f; [done|].
  cbn [remove_all foldl]. fold (remove_all l (remove_subtree p f)).
  etrans; [apply IH|]. apply map_filter_subseteq.
Qed.

(** A removal that raises leaves the directory itself, what was spared
    below it, and everything outside it. *)
Lemma lookup_remove_partly env p q f :
  remove_partly env p f !! q
  = if is_under p q && negb (String.eqb q p) && negb (rmtree_spares env p q)
    then None else f !! q.
Proof.
  unfold remove_partly.
  destruct (is_under p q) eqn:Eu; cbn [andb].
  2:{ destruct (f !! q) as [x|] eqn:Ef.
      - apply map_lookup_filter_Some. split; [done|]. by left.
      - apply map_lookup_filter_None. by left. }
  destruct (String.eqb_spec q p) as [->|Hne]; cbn [negb andb].
  { destruct (f !! p) as [x|] eqn:Ef.
    - apply map_lookup_filter_Some. split; [done|]. right. by left.
    - apply map_lookup_filter_None. by left. }
  destruct (rmtree_spares env p q) eqn:Es; cbn [negb].
  - destruct (f !! q) as [x|] eqn:Ef.
    + apply map_lookup_filter_Some. split; [done|]. right. by right.
    + apply map_lookup_filter_None. by left.
  - apply map_lookup_filter_None. right. intros x _. cbn [fst].
    intros [H|[H|H]]; congruence.
Qed.

Lemma remove_partly_subseteq env p f : remove_partly env p f ⊆ f.
Proof. apply map_filter_subseteq. Qed.
End removal_facts.

Section rmtree_each_facts.
Context (env : Env).
Implicit Types (l : list string) (p q : string) (w : World).

Lemma unnested_cons p l :
  NoDup (p :: l) → unnested (p :: l) →
  unnested l ∧ ∀ q, q ∈ l → is_under p q = false.
Proof.
  intros Hnd Hun. split.
  - intros a b Ha Hb. apply Hun; by right.
  - intros q Hq. destruct (is_under p q) eqn:E; [|done].
    apply Hun in E; [|by left|by right]. subst q.
    apply NoDup_cons in Hnd as [Hnd _]. done.
Qed.

Lemma rmtree_each_cons p l w :
  rmtree_each env (p :: l) w
  = match shutil_rmtree env p w with
    | (Returned _, w') => rmtree_each env l w'
    | (Raised e, w') => (Raised e, w')
    end.
Proof. reflexivity. Qed.

Lemma shutil_rmtree_ok p w :
  removable env (fs w) p →
  shutil_rmtree env p w
  = (Returned tt, emit (Rmtree p) (set_fs (remove_subtree p (fs w)) w)).
Proof. intros [Hp Hr]. unfold shutil_rmtree. by rewrite Hp, Hr. Qed.

(** What a removal that raises leaves of the file system. *)
Lemma shutil_rmtree_fails p w :
  ¬ removable env (fs w) p →
  ∃ f, shutil_rmtree env p w
       = (Raised (OSError p), emit (RmtreeFailed p) (set_fs f w))
       ∧ f ⊆ fs w
       ∧ f !! p = fs w !! p
       ∧ ∀ q, is_under p q = false → f !! q = fs w !! q.
Proof.
  intros Hbad. unfold shutil_rmtree.
  assert (∃ f, (Raised (OSError p), emit (RmtreeFailed p) w)
               = (@Raised unit (OSError p), emit (RmtreeFailed p) (set_fs f w))
               ∧ f ⊆ fs w ∧ f !! p = fs w !! p
               ∧ ∀ q, is_under p q = false → f !! q = fs w !! q) as Hsame.
  { exists (fs w). split; [by destruct w|]. done. }
  destruct (fs w !! p) as [[]|] eqn:Ep; [done| |done].
  destruct (rmtree_raises env p) eqn:Er.
  2:{ destruct Hbad. by split. }
  exists (remove_partly env p (fs w)). split; [done|].
  split; [apply remove_partly_subseteq|]. split.
  - rewrite lookup_remove_partly, String.eqb_refl. cbn.
    by rewrite andb_false_r.
  - intros q Hq. by rewrite lookup_remove_partly, Hq.
Qed.

Lemma rmtree_each_ok l w :
  NoDup l → unnested l → Forall (removable env (fs w)) l →
  rmtree_each env l w =
    (Returned tt,
     {| fs := remove_all l (fs w); clock := clock w;
        trace := trace w ++ map Rmtree l |}).
Proof.
  revert w. induction l as [|p l IH]; intros w Hnd Hun Hok.
  { cbn. rewrite app_nil_r. by destruct w. }
  apply Forall_cons in Hok as [Hp Hok].
  destruct (unnested_cons _ _ Hnd Hun) as [Hun' Hout].
  apply NoDup_cons in Hnd as [_ Hnd].
  rewrite rmtree_each_cons, (shutil_rmtree_ok _ _ Hp).
  rewrite IH; [| done | done |].
  - cbn. by rewrite <- app_assoc.
  - cbn. apply Forall_forall. intros q Hq.
    rewrite Forall_forall in Hok. destruct (Hok q Hq) as [Hq1 Hq2].
    split; [|done]. by rewrite lookup_remove_subtree, (Hout q Hq).
Qed.

Lemma rmtree_each_app l1 l2 w :
  rmtree_each env (l1 ++ l2) w =
    match rmtree_each env l1 w with
    | (Returned _, w') => rmtree_each env l2 w'
    | (Raised e, w') => (Raised e, w')
    end.
Proof.
  revert w. induction l1 as [|p l1 IH]; intros w; [done|].
  cbn [app]. rewrite !rmtree_each_cons.
  destruct (shutil_rmtree env p w) as [[[]|e] w']; [apply IH | done].
Qed.

(** The loop ends at the first removal that raises: the trees before it
    are gone, the one that failed may have lost part of what was below it,
    and those after it are not attempted. *)
Lemma rmtree_each_stops l1 p l2 w :
  NoDup (l1 ++ p :: l2) → unnested (l1 ++ p :: l2) →
  Forall (removable env (fs w)) l1 → ¬ removable env (fs w) p →
  ∃ f,
    rmtree_each env (l1 ++ p :: l2) w =
      (Raised (OSError p),
       {| fs := f; clock := clock w;
          trace := trace w ++ map Rmtree l1 ++ [RmtreeFailed p] |})
    ∧ f ⊆ remove_all l1 (fs w)
    ∧ f !! p = fs w !! p
    ∧ ∀ q, is_under p q = false → f !! q = remove_all l1 (fs w) !! q.
Proof.
  intros Hnd Hun Hok Hbad.
  assert (NoDup l1) as Hnd1 by (by apply NoDup_app in Hnd as [? _]).
  assert (unnested l1) as Hun1.
  { intros a b Ha Hb. apply Hun; apply elem_of_app; by left. }
  rewrite rmtree_each_app, (rmtree_each_ok l1 w Hnd1 Hun1 Hok).
  rewrite rmtree_each_cons.
  set (w1 := {| fs := remove_all l1 (fs w); clock := _; trace := _ |}).
  assert (fs w1 !! p = fs w !! p) as Hp.
  { apply lookup_remove_all_outside. intros a Ha.
    destruct (is_under a p) eqn:E; [|done].
    apply Hun in E; [| apply elem_of_app; by left
                     | apply elem_of_app; right; by left ].
    subst a. apply NoDup_app in Hnd as (_ & Hnd & _).
    destruct (Hnd p Ha). by left. }
  destruct (shutil_rmtree_fails p w1) as (f & -> & Hsub & Hfp & Hout).
  { unfold removable. rewrite Hp. exact Hbad. }
  exists f. split; [|split; [done|split; [congruence|done]]].
  unfold emit, set_fs. cbn. by rewrite <- app_assoc.
Qed.

Lemma rmtree_each_outside l w q :
  (∀ p, p ∈ l → is_under p q = false) →
  fs (rmtree_each env l w).2 !! q = fs w !! q.
Proof.
  revert w. induction l as [|p l IH]; intros w Hout; [done|].
  rewrite rmtree_each_cons.
  destruct (decide (removable env (fs w) p)) as [Hp|Hp].
  - rewrite (shutil_rmtree_ok _ _ Hp).
    rewrite IH by (intros a Ha; apply Hout; by right).
    cbn [emit set_fs fs]. rewrite lookup_remove_subtree, Hout; [done|by left].
  - destruct (shutil_rmtree_fails p w Hp) as (f & -> & _ & _ & Hf).
    cbn. apply Hf, Hout. by left.
Qed.

Lemma rmtree_each_subseteq l w : fs (rmtree_each env l w).2 ⊆ fs w.
Proof.
  revert w. induction l as [|p l IH]; intros w; [done|].
  rewrite rmtree_each_cons.
  destruct (decide (removable env (fs w) p)) as [Hp|Hp].
  - rewrite (shutil_rmtree_ok _ _ Hp).
    etrans; [apply IH|]. cbn [emit set_fs fs]. apply map_filter_subseteq.
  - by destruct (shutil_rmtree_fails p w Hp) as (f & -> & Hsub & _).
Qed.

Lemma rmtree_each_clock l w : clock (rmtree_each env l w).2 = clock w.
Proof.
  revert w. induction l as [|p l IH]; intros w; [done|].
  rewrite rmtree_each_cons.
  destruct (decide (removable env (fs w) p)) as [Hp|Hp].
  - rewrite (shutil_rmtree_ok _ _ Hp). by rewrite IH.
  - by destruct (shutil_rmtree_fails p w Hp) as (f & -> & _).
Qed.

(** The loop removes a prefix of its list, in order, and records at most
    one failed removal, the last thing it does. *)
Lemma rmtree_each_trace l w :
  ∃ removed failed,
    trace (rmtree_each env l w).2
      = trace w ++ map Rmtree removed ++ map RmtreeFailed failed
    ∧ (removed ++ failed) `prefix_of` l
    ∧ match (rmtree_each env l w).1 with
      | Returned _ => failed = [] ∧ removed = l
      | Raised e => ∃ p, failed = [p] ∧ e = OSError p
      end.
Proof.
  revert w. induction l as [|p l IH]; intros w.
  { exists [], []. cbn. rewrite app_nil_r. done. }
  rewrite rmtree_each_cons.
  destruct (decide (removable env (fs w) p)) as [Hp|Hp].
  - rewrite (shutil_rmtree_ok _ _ Hp).
    destruct (IH (emit (Rmtree p) (set_fs (remove_subtree p (fs w)) w)))
      as (removed & failed & Ht & Hpre & Hres).
    exists (p :: removed), failed. split.
    { rewrite Ht. cbn. by rewrite <- app_assoc. }
    split; [by apply prefix_cons|].
    destruct (rmtree_each env l _).1; [|done].
    destruct Hres as [-> ->]. done.
  - destruct (shutil_rmtree_fails p w Hp) as (f & -> & _).
    exists [], [p]. split; [done|]. split; [by exists l|]. by exists p.
Qed.
End rmtree_each_facts.

(** ** Rotation *)

Section rotate_facts.
Context (env : Env) (dest name tag : string).
Implicit Types (w : World) (f : FS) (k : Z).

Lemma NoDup_generations f : NoDup (generations dest name tag f).
Proof. apply NoDup_sorted, NoDup_glob_glob. Qed.

Lemma elem_of_generations f p :
  p ∈ generations dest name tag f ↔
  is_Some (f !! p)
  ∧ glob_match (os_path_join dest (snapshot_pattern name tag)) f p = true.
Proof. unfold generations. by rewrite elem_of_sorted, elem_of_glob_glob. Qed.

Lemma unnested_generations f : unnested (generations dest name tag f).
Proof.
  intros p q [_ Hp]%elem_of_generations [_ Hq]%elem_of_generations.
  eapply is_under_matching; by eapply glob_match_fnmatch.
Qed.

(** [snapshots_list[:-keep]] for [keep >= 1]: all but the last [keep]. *)
Lemma slice_to_neg {A} (l : list A) k :
  1 ≤ k → slice_to l (- k) = take (length l - Z.to_nat k) l.
Proof.
  intros Hk. unfold slice_to.
  destruct (Z.ltb_spec (- k) 0) as [_|]; [|lia].
  f_equal. lia.
Qed.

Lemma rotate_unfold k w :
  1 ≤ k →
  rotate env dest name tag k w =
    rmtree_each env
      (take (length (generations dest name tag (fs w)) - Z.to_nat k)
            (generations dest name tag (fs w))) w.
Proof.
  intros Hk. unfold rotate.
  destruct (Z.ltb_spec k 1) as [|_]; [lia|].
  cbv zeta. by rewrite slice_to_neg.
Qed.

(** The enumeration of a file system that differs from [f] by the removal
    of the trees of the first [n] generations only. *)
Lemma generations_without n f f' :
  (∀ p, p ∈ take n (generations dest name tag f) → f' !! p = None) →
  (∀ q, q ∈ drop n (generations dest name tag f) → f' !! q = f !! q) →
  f' ⊆ f →
  generations dest name tag f' = drop n (generations dest name tag f).
Proof.
  intros Hgone Hkept Hsub.
  set (gens := generations dest name tag f) in *.
  pose proof (NoDup_generations f) as Hnd. fold gens in Hnd.
  rewrite <- (take_drop n gens) in Hnd.
  apply NoDup_app in Hnd as (_ & Hdisj & Hnd).
  apply sorted_unique.
  { apply StronglySorted_drop, sorted_StronglySorted. }
  apply NoDup_Permutation; [done | apply NoDup_glob_glob |].
  intros x. rewrite elem_of_glob_glob. split.
  - intros Hx.
    assert (x ∈ gens) as Hg.
    { rewrite <- (take_drop n gens). apply elem_of_app. by right. }
    apply elem_of_generations in Hg as [Hex Hm].
    rewrite (glob_match_lookup _ f f' x), (Hkept x Hx) by by apply Hkept.
    done.
  - intros [[y Hy] Hm].
    assert (f !! x = Some y) as Hfx by (by eapply lookup_weaken).
    assert (x ∈ gens) as Hg.
    { apply elem_of_generations. split; [done|].
      rewrite <- (glob_match_lookup _ f f' x); [done|congruence]. }
    rewrite <- (take_drop n gens) in Hg.
    apply elem_of_app in Hg as [Hg|Hg]; [|done].
    rewrite (Hgone x Hg) in Hy. done.
Qed.

(** What is left of the enumeration once its first [n] entries are removed. *)
Lemma generations_remove_all n f :
  generations dest name tag
    (remove_all (take n (generations dest name tag f)) f)
  = drop n (generations dest name tag f).
Proof.
  set (gens := generations dest name tag f).
  pose proof (NoDup_generations f) as Hnd. fold gens in Hnd.
  rewrite <- (take_drop n gens) in Hnd.
  apply NoDup_app in Hnd as (_ & Hdisj & _).
  apply generations_without; fold gens.
  - intros p Hp. eapply lookup_remove_all_inside; [done|apply is_under_refl].
  - intros q Hq. apply lookup_remove_all_outside.
    intros p Hp. destruct (is_under p q) eqn:E; [|done].
    apply (unnested_generations f) in E;
      [| by eapply subseteq_take | by eapply subseteq_drop].
    subst q. destruct (Hdisj p Hp Hq).
  - apply remove_all_subseteq.
Qed.

(** Rotation with [keep >= 1] when every removal goes through. *)
Lemma rotate_removes_oldest k w :
  1 ≤ k →
  let gens := generations dest name tag (fs w) in
  let delete_list := take (length gens - Z.to_nat k) gens in
  Forall (removable env (fs w)) delete_list →
  rotate env dest name tag k w =
    (Returned tt,
     {| fs := remove_all delete_list (fs w); clock := clock w;
        trace := trace w ++ map Rmtree delete_list |})
  ∧ generations dest name tag (remove_all delete_list (fs w))
    = drop (length gens - Z.to_nat k) gens.
Proof.
  intros Hk gens delete_list Hok. split.
  - rewrite rotate_unfold by done. apply rmtree_each_ok; [| |done].
    + eapply sublist_NoDup; [apply NoDup_generations | apply sublist_take].
    + intros p q Hp%subseteq_take Hq%subseteq_take.
      by apply (unnested_generations (fs w)).
  - apply generations_remove_all.
Qed.

(** Whatever [keep] is, the paths [rotate] works through are enumerated
    generations. *)
Lemma rotate_as_loop keep w :
  ∃ l, l ⊆ generations dest name tag (fs w)
       ∧ l `prefix_of` generations dest name tag (fs w)
       ∧ rotate env dest name tag keep w = rmtree_each env l w.
Proof.
  unfold rotate. destruct (keep <? 1).
  - exists []. split; [set_solver|]. split; [apply prefix_nil|done].
  - cbv zeta. unfold slice_to. fold (generations dest name tag (fs w)).
    eexists. split; [apply subseteq_take|]. split; [apply prefix_take|done].
Qed.
End rotate_facts.

(** ** Retention *)

(** C9. With [keep <= 0] rotation returns at once: no removal is attempted
    and the world (file system, trace) is exactly what it was. *)
Theorem rotate_unlimited_retention (env : Env) (dest name tag : string) (keep : Z) (w : World) :
  keep ≤ 0 →
  rotate env dest name tag keep w = (Returned tt, w).
Proof.
  intros Hk. unfold rotate.
  by destruct (Z.ltb_spec keep 1) as [_|]; [|lia].
Qed.

Lemma rotate_unlimited_retention_witness :
  0 ≤ 0 ∧
  rotate env_all_well "/snap" "home" "daily" 0 sample_world
    = (Returned tt, sample_world).
Proof.
  split; [lia|].
  apply (rotate_unlimited_retention env_all_well
           "/snap" "home" "daily" 0 sample_world).
  lia.
Defined.

(** ** What rotation leaves alone *)

(** X7. [rotate] only ever removes enumerated generations and what lies
    below them: it adds nothing to the file system, reads no clock, and
    every path that is not an enumerated generation nor below one is left
    as it was, whatever [keep] is and whether or not a removal fails. *)
Theorem rotate_is_confined_to_generations (env : Env) (dest name tag : string)
    (keep : Z) (w : World) :
  fs (rotate env dest name tag keep w).2 ⊆ fs w
  ∧ clock (rotate env dest name tag keep w).2 = clock w
  ∧ ∀ q, (∀ p, p ∈ generations dest name tag (fs w) → is_under p q = false) →
         fs (rotate env dest name tag keep w).2 !! q = fs w !! q.
Proof.
  destruct (rotate_as_loop env dest name tag keep w) as (l & Hsub & _ & ->).
  split; [apply rmtree_each_subseteq|]. split; [apply rmtree_each_clock|].
  intros q Hq. apply rmtree_each_outside. intros p Hp. apply Hq, Hsub, Hp.
Qed.

Lemma rotate_is_confined_to_generations_witness :
  fs (rotate env_all_well "/snap" "home" "daily" 1 sample_world).2 !! "/snap/lost+found"
  = Some Dir.
Proof.
  destruct (rotate_is_confined_to_generations env_all_well "/snap" "home" "daily" 1
              sample_world) as (_ & _ & H).
  rewrite H; [reflexivity|].
  intros p Hp. vm_compute in Hp.
  repeat (apply elem_of_cons in Hp as [->|Hp]; [reflexivity|]).
  by apply elem_of_nil in Hp.
Defined.

(** X8. [rotate] never removes one of the last [keep] entries of the
    enumeration: each of them is in the file system afterwards as it was
    before, also when a removal fails on the way. *)
Theorem rotate_keeps_the_newest (env : Env) (dest name tag : string) (keep : Z)
    (w : World) (p : string) :
  let gens := generations dest name tag (fs w) in
  p ∈ drop (length gens - Z.to_nat keep) gens →
  fs (rotate env dest name tag keep w).2 !! p = fs w !! p.
Proof.
  intros gens Hp. destruct (Z.le_gt_cases keep 0) as [Hk|Hk].
  { unfold rotate. by destruct (Z.ltb_spec keep 1) as [_|]; [|lia]. }
  rewrite rotate_unfold by lia. fold gens.
  apply rmtree_each_outside. intros a Ha.
  destruct (is_under a p) eqn:E; [|done].
  pose proof (NoDup_generations dest name tag (fs w)) as Hnd. fold gens in Hnd.
  rewrite <- (take_drop (length gens - Z.to_nat keep) gens) in Hnd.
  apply NoDup_app in Hnd as (_ & Hdisj & _).
  apply (unnested_generations dest name tag (fs w)) in E;
    [| by eapply subseteq_take | by eapply subseteq_drop].
  subst p. destruct (Hdisj a Ha Hp).
Qed.

Lemma rotate_keeps_the_newest_witness :
  fs (rotate env_removal_fails "/snap" "home" "daily" 1 sample_world).2 !! gen10
  = Some Dir.
Proof.
  etransitivity;
    [apply (rotate_keeps_the_newest env_removal_fails "/snap" "home" "daily" 1
              sample_world gen10)|reflexivity].
  vm_compute. apply list_elem_of_here.
Defined.

(** X9. Rotating again with the same or a larger [keep] changes nothing: a
    rotation with [keep = k > 0] whose removals went through leaves at most
    [k] generations, so a second rotation with [k' >= k] returns with the
    world as the first one left it. *)
Theorem rotate_again_is_a_no_op (env : Env) (dest name tag : string) (k k' : Z)
    (w : World) :
  0 < k → k ≤ k' →
  let gens := generations dest name tag (fs w) in
  Forall (removable env (fs w)) (take (length gens - Z.to_nat k) gens) →
  rotate env dest name tag k' (rotate env dest name tag k w).2
  = (Returned tt, (rotate env dest name tag k w).2).
Proof.
  intros Hk Hk' gens Hok.
  destruct (rotate_removes_oldest env dest name tag k w) as [Hrot Hgen];
    [lia | exact Hok |].
  fold gens in Hrot, Hgen. rewrite Hrot. cbn [snd].
  set (w1 := {| fs := _; clock := _; trace := _ |}) in *.
  rewrite rotate_unfold by lia.
  assert (take (length (generations dest name tag (fs w1)) - Z.to_nat k')
               (generations dest name tag (fs w1)) = []) as ->; [|done].
  subst w1. cbn [fs]. rewrite Hgen, length_drop.
  replace (length gens - (length gens - Z.to_nat k) - Z.to_nat k')%nat with 0%nat by lia.
  apply take_0.
Qed.

Lemma rotate_again_is_a_no_op_witness :
  rotate env_all_well "/snap" "home" "daily" 2
    (rotate env_all_well "/snap" "home" "daily" 1 sample_world).2
  = (Returned tt, (rotate env_all_well "/snap" "home" "daily" 1 sample_world).2).
Proof.
  apply (rotate_again_is_a_no_op env_all_well "/snap" "home" "daily" 1 2 sample_world).
  - lia.
  - lia.
  - cbv zeta. apply (bool_decide_unpack _). vm_compute. exact I.
Defined.


(** X18. Rotation with [keep = k > 0], every removal going through:
    [rotate] removes exactly the entries of the ascending enumeration other
    than its last [k], in that order, and nothing outside their trees; the
    enumeration afterwards is the last [min k n] entries of the one before,
    in the order of their names; when [k >= n] nothing is deleted and the
    world is unchanged.  The order is that of the names, which is not that
    of the ages of the generations. *)
Theorem rotate_retention_bound (env : Env) (dest name tag : string) (k : Z) (w : World) :
  0 < k →
  let gens := generations dest name tag (fs w) in
  let n := length gens in
  let delete_list := take (n - Z.to_nat k) gens in
  Forall (removable env (fs w)) delete_list →
  ∃ w',
    rotate env dest name tag k w = (Returned tt, w')
    ∧ trace w' = trace w ++ map Rmtree delete_list
    ∧ fs w' = remove_all delete_list (fs w)
    ∧ (∀ q, (∀ p, p ∈ delete_list → is_under p q = false) → fs w' !! q = fs w !! q)
    ∧ gens = delete_list ++ generations dest name tag (fs w')
    ∧ generations dest name tag (fs w') = drop (n - Z.to_nat k) gens
    ∧ length (generations dest name tag (fs w')) = Nat.min (Z.to_nat k) n
    ∧ (Z.of_nat n ≤ k → delete_list = [] ∧ w' = w).
Proof.
  intros Hk gens n delete_list Hok.
  destruct (rotate_removes_oldest env dest name tag k w) as [Hrot Hgen];
    [lia | exact Hok |].
  fold gens in Hrot, Hgen. fold n in Hrot, Hgen. fold delete_list in Hrot, Hgen.
  eexists. split; [exact Hrot|]. cbn [fs trace].
  split; [|split; [|split; [|split; [|split; [|split]]]]].
  - done.
  - done.
  - intros q Hq. by apply lookup_remove_all_outside.
  - rewrite Hgen. unfold delete_list. by rewrite take_drop.
  - done.
  - rewrite Hgen, length_drop. fold n. lia.
  - intros Hn. assert (delete_list = []) as Hd.
    { unfold delete_list. replace (n - Z.to_nat k)%nat with 0%nat by lia. done. }
    split; [done|]. rewrite Hd. cbn. rewrite app_nil_r. by destruct w.
Qed.

Lemma rotate_retention_bound_witness :
  0 < 2 ∧
  ∃ w',
    rotate env_all_well "/snap" "home" "daily" 2 sample_world
      = (Returned tt, w')
    ∧ generations "/snap" "home" "daily" (fs w')
      = [gen09; gen10].
Proof.
  split; [lia|].
  destruct (rotate_retention_bound env_all_well
              "/snap" "home" "daily" 2 sample_world)
    as (w' & Hrot & _ & _ & _ & _ & Hgen & _).
  - lia.
  - cbv zeta. apply (bool_decide_unpack _). vm_compute. exact I.
  - exists w'. split; [exact Hrot|]. rewrite Hgen. vm_compute. reflexivity.
Defined.

(** ** The calls of the Builder *)

Section call_facts.
Context (env : Env).
Implicit Types (w : World) (f : FS) (path d q : string).

Lemma bind_unfold {A B} (m : M A) (k : A → M B) w :
  bind m k w = match m w with
               | (Returned a, w') => k a w'
               | (Raised e, w') => (Raised e, w')
               end.
Proof. reflexivity. Qed.

Lemma os_path_isdir_exists path f :
  os_path_isdir path f = true → os_path_exists path f = true.
Proof.
  unfold os_path_isdir, os_path_exists.
  destruct (String.eqb (canon path) "/"); [done|]. cbn [orb].
  intros H%bool_decide_eq_true. by rewrite H.
Qed.

(** The file system [touch] leaves when it returns. *)
Lemma touch_returned_fs path w w' :
  touch env path w = (Returned tt, w') →
  (os_path_isdir path (fs w) = true ∧ fs w' = fs w)
  ∨ (os_path_isdir path (fs w) = false ∧ Str.endswith sep path = false
     ∧ fs w' = <[canon path := File]> (fs w)).
Proof.
  unfold touch. destruct (os_path_isdir path (fs w)) eqn:Ed.
  - destruct (utime_raises env path); [done|]. intros [= <-]. by left.
  - destruct (Str.endswith sep path) eqn:Es; [done|]. cbn [orb].
    destruct (_ || _); [done|]. intros [= <-]. by right.
Qed.

(** What [touch] does when it returns: the path exists afterwards, a
    missing path has become a file, nothing else has changed. *)
Lemma touch_returned path w w' :
  touch env path w = (Returned tt, w') →
  trace w' = trace w ++ [Touched path]
  ∧ clock w' = clock w
  ∧ os_path_exists path (fs w') = true
  ∧ (∀ q, q ≠ canon path → fs w' !! q = fs w !! q)
  ∧ (∀ x, fs w !! canon path = Some x → fs w' !! canon path = Some x)
  ∧ (fs w !! canon path = None → canon path ≠ "/" →
     fs w' !! canon path = Some File).
Proof.
  intros Ht. pose proof (touch_returned_fs _ _ _ Ht) as Hfs.
  assert (trace w' = trace w ++ [Touched path] ∧ clock w' = clock w) as [Htr Hcl].
  { revert Ht. unfold touch.
    destruct (os_path_isdir _ _); [destruct (utime_raises _ _)|destruct (_ || _)];
      intros [= <-]; done. }
  split; [done|]. split; [done|].
  destruct Hfs as [[Hd ->]|(Hd & Hs & ->)].
  - split; [by apply os_path_isdir_exists|]. split; [done|]. split; [done|].
    intros Hn Hr. unfold os_path_isdir in Hd. rewrite Hn in Hd.
    apply orb_true_iff in Hd as [Hd%String.eqb_eq|Hd%bool_decide_eq_true]; done.
  - unfold os_path_isdir in Hd.
    apply orb_false_iff in Hd as [Hr Hd%bool_decide_eq_false].
    split.
    { unfold os_path_exists. rewrite Hr, lookup_insert_eq, Hs. done. }
    split; [intros q Hq; by rewrite lookup_insert_ne|].
    split; [|intros; by rewrite lookup_insert_eq].
    intros x Hx. rewrite lookup_insert_eq. destruct x; [done|congruence].
Qed.

Lemma touch_subseteq path w : fs w ⊆ fs (touch env path w).2.
Proof.
  unfold touch. destruct (os_path_isdir path (fs w)) eqn:Ed.
  { by destruct (utime_raises env path). }
  destruct (_ || _); [done|]. cbn [snd emit set_fs fs].
  unfold os_path_isdir in Ed.
  apply orb_false_iff in Ed as [_ Hd%bool_decide_eq_false].
  destruct (fs w !! canon path) as [[]|] eqn:E.
  - by rewrite insert_id.
  - done.
  - by apply insert_subseteq.
Qed.

(** What [touch] does when it raises: nothing. *)
Lemma touch_raised path w e w' :
  touch env path w = (Raised e, w') →
  e = OSError path ∧ w' = emit (TouchFailed path) w.
Proof.
  unfold touch.
  destruct (os_path_isdir _ _); [destruct (utime_raises _ _)|destruct (_ || _)];
    intros [= <- <-]; done.
Qed.

Lemma touch_cases path w :
  (∃ w', touch env path w = (Returned tt, w'))
  ∨ touch env path w = (Raised (OSError path), emit (TouchFailed path) w).
Proof.
  unfold touch.
  destruct (os_path_isdir _ _); [destruct (utime_raises _ _)|destruct (_ || _)];
    eauto.
Qed.

Lemma os_mkdir_cases d f :
  os_mkdir env d f = (Raised (OSError d), f)
  ∨ (f !! d = None ∧ os_mkdir env d f = (Returned tt, <[d := Dir]> f)).
Proof.
  unfold os_mkdir.
  destruct (String.eqb d ""); [by left|].
  destruct (String.eqb d "/"); [by left|].
  destruct (bool_decide (is_Some (f !! d))) eqn:E; [by left|].
  destruct (_ || _); [by left|]. right. split; [|done].
  apply bool_decide_eq_false in E. by apply eq_None_not_Some.
Qed.

Lemma os_mkdir_subseteq d f : f ⊆ (os_mkdir env d f).2.
Proof.
  destruct (os_mkdir_cases d f) as [->|[Hn ->]]; [done|].
  by apply insert_subseteq.
Qed.

Lemma mkdir_missing_subseteq dirs f : f ⊆ (mkdir_missing env dirs f).2.
Proof.
  revert f. induction dirs as [|d dirs IH]; intros f; [done|].
  cbn [mkdir_missing]. destruct (bool_decide _); [apply IH|].
  destruct (os_mkdir_cases d f) as [->|[Hn ->]]; [done|].
  etrans; [|apply IH]. by apply insert_subseteq.
Qed.

(** [os.makedirs] only adds directories; when it returns, the path is a
    directory. *)
Lemma os_makedirs_cases path w :
  ∃ f, fs w ⊆ f
       ∧ ((os_makedirs env path w
           = (Returned tt, emit (Makedirs path) (set_fs f w))
           ∧ os_path_isdir path f = true)
          ∨ ∃ e, os_makedirs env path w
                 = (Raised e, emit (MakedirsFailed path) (set_fs f w))).
Proof.
  unfold os_makedirs.
  pose proof (mkdir_missing_subseteq (ancestors (canon path)) (fs w)) as Hsub.
  destruct (mkdir_missing env _ (fs w)) as [[[]|e] f1]; cbn [snd] in Hsub.
  2:{ exists f1. split; [done|]. right. by exists e. }
  destruct (os_mkdir_cases (canon path) f1) as [->|[Hn ->]].
  - exists f1. split; [done|]. right. by eexists.
  - exists (<[canon path := Dir]> f1). split.
    { etrans; [done|]. by apply insert_subseteq. }
    left. split; [done|]. unfold os_path_isdir.
    rewrite lookup_insert_eq, bool_decide_eq_true_2 by done. apply orb_true_r.
Qed.

(** Lines 198-199: the file system only grows, the clock is not read, and
    the trace gains at most the call of [os.makedirs]. *)
Lemma before_mirror_cases dest w :
  (∃ w0, before_mirror env dest w = (Returned tt, w0)
         ∧ clock w0 = clock w ∧ fs w ⊆ fs w0
         ∧ os_path_exists dest (fs w0) = true
         ∧ ((os_path_exists dest (fs w) = true ∧ w0 = w)
            ∨ (os_path_exists dest (fs w) = false
               ∧ trace w0 = trace w ++ [Makedirs dest])))
  ∨ (∃ e w0, before_mirror env dest w = (Raised e, w0)
             ∧ clock w0 = clock w ∧ fs w ⊆ fs w0
             ∧ os_path_exists dest (fs w) = false
             ∧ trace w0 = trace w ++ [MakedirsFailed dest]).
Proof.
  unfold before_mirror. destruct (os_path_exists dest (fs w)) eqn:E; cbn [negb].
  { left. exists w. split; [done|]. split; [done|]. split; [done|].
    split; [done|]. by left. }
  destruct (os_makedirs_cases dest w) as (f & Hsub & [[-> Hd]|[e ->]]).
  - left. eexists. split; [done|]. split; [done|]. split; [done|].
    split; [by apply os_path_isdir_exists|]. by right.
  - right. eexists _, _. split; [done|]. done.
Qed.

Lemma before_mirror_trace dest w :
  ∃ pre, trace (before_mirror env dest w).2 = trace w ++ pre
         ∧ (pre = [] ∨ pre = [Makedirs dest] ∨ pre = [MakedirsFailed dest]).
Proof.
  destruct (before_mirror_cases dest w)
    as [(w0 & -> & _ & _ & _ & [[_ ->]|[_ Ht]])|(e & w0 & -> & _ & _ & _ & Ht)].
  - exists []. by rewrite app_nil_r; auto.
  - exists [Makedirs dest]. auto.
  - exists [MakedirsFailed dest]. auto.
Qed.
End call_facts.

(** ** The Builder *)

Section sync_facts.
Context (env : Env).
Implicit Types (w : World) (source dest name tag cur : string)
  (excludes : list string).

Lemma sync_with_predecessor source dest name tag excludes w last_snapshot :
  last (generations dest name tag (fs w)) = Some last_snapshot →
  let cur := new_snapshot env dest name tag w in
  let cmd_line := cp_cmd_line last_snapshot cur in
  let rc := (popen_wait env cmd_line (fs w)).1 in
  let w1 := emit (Launch cmd_line rc)
              (set_fs (popen_wait env cmd_line (fs w)).2 (tick w)) in
  sync env source dest name tag excludes w =
    match rc with
    | Raised e => (Raised e, w1)
    | Returned code =>
        if code >? 0 then (Returned code, w1)
        else sync_mirror env source dest excludes cur w1
    end.
Proof.
  intros Hl cur cmd_line rc w1. unfold sync. rewrite bind_unfold.
  unfold time_strftime at 1. cbv zeta.
  fold (generations dest name tag (fs (tick w))). cbn [tick fs].
  rewrite Hl. fold (new_snapshot env dest name tag w). fold cur.
  fold (cp_cmd_line last_snapshot cur). fold cmd_line.
  rewrite bind_unfold. unfold launch_command. subst w1 rc. cbn [tick fs].
  destruct (popen_wait env cmd_line (fs w)) as [[code|e] f]; [|done].
  cbn [fst snd]. by destruct (code >? 0).
Qed.

Lemma sync_without_predecessor source dest name tag excludes w :
  last (generations dest name tag (fs w)) = None →
  sync env source dest name tag excludes w =
    sync_mirror env source dest excludes (new_snapshot env dest name tag w) (tick w).
Proof.
  intros Hl. unfold sync. rewrite bind_unfold.
  unfold time_strftime at 1. cbv zeta.
  fold (generations dest name tag (fs (tick w))). cbn [tick fs].
  by rewrite Hl.
Qed.

(** The completion marker of a generation is not the generation. *)
Lemma marker_neq cur date :
  os_path_join (cur +:+ "/") ("_backup_" +:+ date) ≠ cur +:+ "/".
Proof.
  intros H. apply (f_equal String.length) in H. revert H.
  unfold os_path_join. change (Str.startswith "/" ("_backup_" +:+ date)) with false.
  cbv iota.
  assert (∀ s t, String.length (s +:+ t) = (String.length s + String.length t)%nat)
    as Hlen.
  { induction s as [|a s IH]; intros t; [done|]. rewrite append_cons. cbn. by rewrite IH. }
  destruct (_ || _); rewrite !Hlen; cbn; lia.
Qed.

(** The mirroring part of [sync]: [dest] is made if it is missing; then
    comes the one [rsync] launch; a positive return code is returned at
    once; any other code is followed by the two [touch] calls and the
    result 0.  Each of these calls may raise, which ends the part. *)
Lemma sync_mirror_shape source dest excludes cur w :
  let cmd_line := rsync_cmd_line excludes (normalize_source source) (cur +:+ "/") in
  let marker := os_path_join (cur +:+ "/")
                  ("_backup_" +:+ strftime "%Y%m%d_%I%M%S"
                                    (time_localtime env (clock w))) in
  let r := sync_mirror env source dest excludes cur w in
  (∃ e, r.1 = Raised e ∧ trace r.2 = trace w ++ [MakedirsFailed dest]
        ∧ os_path_exists dest (fs w) = false)
  ∨ ∃ pre rc post,
      trace r.2 = trace w ++ pre ++ Launch cmd_line rc :: post
      ∧ ((pre = [] ∧ os_path_exists dest (fs w) = true)
         ∨ (pre = [Makedirs dest] ∧ os_path_exists dest (fs w) = false))
      ∧ (∃ w0, before_mirror env dest w = (Returned tt, w0)
               ∧ rc = (popen_wait env cmd_line (fs w0)).1)
      ∧ match rc with
        | Raised e => r.1 = Raised e ∧ post = []
        | Returned code =>
            if code >? 0 then r.1 = Returned code ∧ post = []
            else (r.1 = Returned 0
                  ∧ post = [Touched (cur +:+ "/"); Touched marker]
                  ∧ os_path_exists marker (fs r.2) = true)
                 ∨ (r.1 = Raised (OSError (cur +:+ "/"))
                    ∧ post = [TouchFailed (cur +:+ "/")])
                 ∨ (r.1 = Raised (OSError marker)
                    ∧ post = [Touched (cur +:+ "/"); TouchFailed marker])
        end.
Proof.
  intros cmd_line marker r. subst r. unfold sync_mirror. rewrite bind_unfold.
  fold cmd_line.
  destruct (before_mirror_cases env dest w)
    as [(w0 & Hb & Hc & _ & _ & Hpre)|(e & w0 & Hb & _ & _ & Hex & Ht)];
    rewrite Hb.
  2:{ left. exists e. done. }
  right.
  assert (∃ pre, trace w0 = trace w ++ pre
                 ∧ ((pre = [] ∧ os_path_exists dest (fs w) = true)
                    ∨ (pre = [Makedirs dest] ∧ os_path_exists dest (fs w) = false)))
    as (pre & Ht & Hp).
  { destruct Hpre as [[? ->]|[? ?]]; [exists []|exists [Makedirs dest]].
    - rewrite app_nil_r. auto.
    - auto. }
  rewrite bind_unfold. unfold launch_command.
  exists pre, (popen_wait env cmd_line (fs w0)).1.
  assert (∀ rc, rc = (popen_wait env cmd_line (fs w0)).1 →
            ∃ w1, (@Returned unit tt, w0) = (Returned tt, w1)
                  ∧ rc = (popen_wait env cmd_line (fs w1)).1) as Hrc.
  { intros rc ->. by exists w0. }
  destruct (popen_wait env cmd_line (fs w0)) as [[code|e] f] eqn:Ew; cbn [fst] in *.
  2:{ exists []. cbn [fst snd emit set_fs trace]. rewrite Ht, <- app_assoc. auto. }
  destruct (code >? 0) eqn:Ecode.
  { exists []. cbn [ret fst snd emit set_fs trace]. rewrite Ht, <- app_assoc. auto. }
  set (w1 := emit _ _).
  assert (trace w1 = trace w ++ pre ++ [Launch cmd_line (Returned code)]) as Hw1.
  { subst w1. cbn [emit set_fs trace]. by rewrite Ht, <- app_assoc. }
  assert (clock w1 = clock w) as Hc1 by done.
  rewrite bind_unfold.
  destruct (touch_cases env (cur +:+ "/") w1) as [[w2 Ht1]|Ht1]; rewrite Ht1.
  2:{ exists [TouchFailed (cur +:+ "/")]. cbn [snd fst emit trace].
      rewrite Hw1, <- !app_assoc. cbn [app]. auto 10. }
  destruct (touch_returned env _ _ _ Ht1) as (Htr2 & Hc2 & _).
  rewrite bind_unfold. unfold time_strftime. rewrite bind_unfold.
  rewrite Hc2, Hc1. fold marker.
  destruct (touch_cases env marker (tick w2)) as [[w3 Ht2]|Ht2]; rewrite Ht2.
  2:{ exists [Touched (cur +:+ "/"); TouchFailed marker].
      cbn [snd fst emit tick trace].
      rewrite Htr2, Hw1, <- !app_assoc. cbn [app]. auto 10. }
  destruct (touch_returned env _ _ _ Ht2) as (Htr3 & _ & Hex3 & _).
  exists [Touched (cur +:+ "/"); Touched marker]. cbn [ret snd fst].
  rewrite Htr3. cbn [tick trace]. rewrite Htr2, Hw1, <- !app_assoc. cbn [app].
  auto 10.
Qed.

(** What the mirroring part adds to the trace beside the one [rsync]
    launch is neither a copy-link nor a mirroring launch. *)
Lemma sync_mirror_trace source dest excludes cur w :
  let mirror := rsync_cmd_line excludes (normalize_source source) (cur +:+ "/") in
  let r := sync_mirror env source dest excludes cur w in
  (trace r.2 = trace w ++ [MakedirsFailed dest]
   ∧ os_path_exists dest (fs w) = false)
  ∨ ∃ pre rc post,
      trace r.2 = trace w ++ pre ++ Launch mirror rc :: post
      ∧ Forall quiet pre ∧ Forall quiet post.
Proof.
  intros mirror r.
  destruct (sync_mirror_shape source dest excludes cur w)
    as [(e & _ & Ht & Hex)|(pre & rc & post & Ht & Hpre & _ & Hrc)].
  { by left. }
  right. exists pre, rc, post. split; [exact Ht|]. split.
  { destruct Hpre as [[-> _]|[-> _]]; repeat constructor. }
  destruct rc as [code|e].
  - destruct (code >? 0).
    + destruct Hrc as [_ ->]. constructor.
    + destruct Hrc as [(_ & -> & _)|[(_ & ->)|(_ & ->)]]; repeat constructor.
  - destruct Hrc as [_ ->]. constructor.
Qed.

Lemma quiet_not_clone l : Forall quiet l → Forall (λ e, is_clone e = false) l.
Proof. intros H. eapply Forall_impl; [exact H|]. by intros e [? _]. Qed.

Lemma quiet_not_mirror l : Forall quiet l → Forall (λ e, is_mirror e = false) l.
Proof. intros H. eapply Forall_impl; [exact H|]. by intros e [_ ?]. Qed.
End sync_facts.

(** C7. When some entry of the destination matches the (name, *, tag)
    pattern, the predecessor [sync] picks is the last entry of the sorted
    enumeration, it is one of the matching entries and no matching entry
    sorts after it, and the first thing [sync] does is launch
    [cp -a -l predecessor new_generation], the only copy-link launch of the
    call.  When no entry matches there is no copy-link launch: the only
    command launched is [rsync] from the normalised source into the new
    generation, unless the missing destination cannot be made, in which
    case no command is launched at all. *)
Theorem sync_clones_last_generation (env : Env) (source dest name tag : string)
    (excludes : list string) (w : World) :
  let matches := glob_glob (os_path_join dest (snapshot_pattern name tag)) (fs w) in
  let cur := new_snapshot env dest name tag w in
  let mirror := rsync_cmd_line excludes (normalize_source source) (cur +:+ "/") in
  let w' := (sync env source dest name tag excludes w).2 in
  (matches ≠ [] →
     ∃ last_snapshot code rest,
       last (sorted matches) = Some last_snapshot
       ∧ last_snapshot ∈ matches
       ∧ (∀ p, p ∈ matches → String.le p last_snapshot)
       ∧ trace w' = trace w ++ Launch (cp_cmd_line last_snapshot cur) code :: rest
       ∧ Forall (λ e, is_clone e = false) rest)
  ∧ (matches = [] →
       (trace w' = trace w ++ [MakedirsFailed dest]
        ∧ os_path_exists dest (fs w) = false)
       ∨ ∃ pre code post,
           trace w' = trace w ++ pre ++ Launch mirror code :: post
           ∧ Forall (λ e, is_clone e = false) (pre ++ Launch mirror code :: post)
           ∧ Forall (λ e, is_mirror e = false) (pre ++ post)).
Proof.
  intros matches cur mirror w'. split.
  - intros Hne.
    destruct (last (sorted matches)) as [last_snapshot|] eqn:Hl.
    2:{ apply last_None in Hl. apply (proj1 (sorted_nil _)) in Hl. destruct (Hne Hl). }
    destruct (last_sorted_max _ _ Hl) as [Hin Hmax].
    pose proof (sync_with_predecessor env source dest name tag excludes w
                  last_snapshot Hl) as Hs.
    cbv zeta in Hs. fold cur in Hs.
    set (code := (popen_wait env (cp_cmd_line last_snapshot cur) (fs w)).1) in *.
    set (w1 := emit _ _) in Hs.
    assert (trace w1 = trace w ++ [Launch (cp_cmd_line last_snapshot cur) code])
      as Hw1 by done.
    exists last_snapshot, code.
    assert (∃ rest, trace (sync_mirror env source dest excludes cur w1).2
                    = trace w ++ Launch (cp_cmd_line last_snapshot cur) code :: rest
                    ∧ Forall (λ e, is_clone e = false) rest) as Hmirror.
    { destruct (sync_mirror_trace env source dest excludes cur w1)
        as [[Ht _]|(pre & c & post & Ht & Hpre & Hpost)].
      - exists [MakedirsFailed dest]. split; [|by repeat constructor].
        rewrite Ht, Hw1. by rewrite <- app_assoc.
      - exists (pre ++ Launch mirror c :: post). split.
        + rewrite Ht, Hw1. by rewrite <- app_assoc.
        + apply Forall_app. split; [by apply quiet_not_clone|].
          constructor; [done | by apply quiet_not_clone]. }
    subst w'. rewrite Hs.
    destruct code as [c|e].
    + destruct (c >? 0).
      * exists []. repeat split; auto.
      * destruct Hmirror as (rest & Ht & Hq). exists rest. repeat split; auto.
    + exists []. repeat split; auto.
  - intros Hnil.
    assert (last (generations dest name tag (fs w)) = None) as Hl.
    { unfold generations. fold matches. by rewrite Hnil. }
    pose proof (sync_without_predecessor env source dest name tag excludes w Hl) as Hs.
    fold cur in Hs. subst w'. rewrite Hs.
    destruct (sync_mirror_trace env source dest excludes cur (tick w))
      as [[Ht Hex]|(pre & c & post & Ht & Hpre & Hpost)].
    { left. done. }
    right. exists pre, c, post. split; [exact Ht|]. split.
    + apply Forall_app. split; [by apply quiet_not_clone|].
      constructor; [done | by apply quiet_not_clone].
    + apply Forall_app. split; by apply quiet_not_mirror.
Qed.

Lemma sync_clones_last_generation_witness :
  (∃ code rest,
     trace (sync env_all_well "/home/" "/snap" "home" "daily"
              ["*.tmp"] sample_world).2
     = Launch (cp_cmd_line gen10 gen11) code :: rest)
  ∧ (∃ pre code post,
       trace (sync env_all_well "/home/" "/snap" "home" "daily"
                ["*.tmp"] empty_world).2
       = pre ++ Launch (rsync_cmd_line ["*.tmp"] "/home/" (gen11 +:+ "/")) code :: post
       ∧ Forall (λ e, is_mirror e = false) (pre ++ post)).
Proof.
  split.
  - destruct (sync_clones_last_generation env_all_well
                "/home/" "/snap" "home" "daily" ["*.tmp"] sample_world) as [H _].
    destruct H as (l & code & rest & Hl & _ & _ & Ht & _).
    { vm_compute. discriminate. }
    vm_compute in Hl. injection Hl as <-.
    exists code, rest. exact Ht.
  - destruct (sync_clones_last_generation env_all_well
                "/home/" "/snap" "home" "daily" ["*.tmp"] empty_world) as [_ H].
    destruct H as [[_ Hex]|(pre & code & post & Ht & _ & Hm)].
    { vm_compute. reflexivity. }
    { vm_compute in Hex. discriminate Hex. }
    exists pre, code, post. split; [exact Ht | exact Hm].
Defined.

(** ** What [sync] returns *)

Section sync_result.
Context (env : Env).
Implicit Types (w : World) (source dest name tag cur : string)
  (excludes : list string).

(** A summary of the mirroring part of [sync] in terms of the events [l] it
    adds: at most one mirroring launch and no copy-link launch; a positive
    return code is the result; a launch that raises is the end; any other
    return code gives 0 unless a [touch] raises; the two [touch] calls end
    the events exactly when the result is 0. *)
Lemma sync_mirror_summary source dest excludes cur w :
  let marker := os_path_join (cur +:+ "/")
                  ("_backup_" +:+ strftime "%Y%m%d_%I%M%S"
                                    (time_localtime env (clock w))) in
  let r := sync_mirror env source dest excludes cur w in
  ∃ l, trace r.2 = trace w ++ l
    ∧ (length (filter (λ e, is_mirror e = true) l) ≤ 1)%nat
    ∧ Forall (λ e, is_clone e = false) l
    ∧ (∀ cmd_line code, Launch cmd_line (Returned code) ∈ l →
         (0 < code → r.1 = Returned code)
         ∧ (code ≤ 0 → r.1 = Returned 0
                        ∨ ∃ p, r.1 = Raised (OSError p) ∧ TouchFailed p ∈ l))
    ∧ (∀ cmd_line e, Launch cmd_line (Raised e) ∈ l → r.1 = Raised e)
    ∧ match r.1 with
      | Returned res =>
          0 ≤ res
          ∧ (∃ cmd_line code, Launch cmd_line (Returned code) ∈ l
                              ∧ res = Z.max code 0)
          ∧ (∃ l0, l = l0 ++ (if res =? 0
                              then [Touched (cur +:+ "/"); Touched marker] else [])
                   ∧ Forall (λ e, is_touch e = false) l0)
          ∧ (res = 0 → os_path_exists marker (fs r.2) = true)
      | Raised e => Touched marker ∉ l
      end.
Proof.
  intros marker r.
  pose proof (marker_neq cur (strftime "%Y%m%d_%I%M%S" (time_localtime env (clock w))))
    as Hneq. fold marker in Hneq.
  destruct (sync_mirror_shape env source dest excludes cur w)
    as [(e & Hr & Ht & _)|(pre & rc & post & Ht & Hpre & _ & Hrc)];
    fold r in Hr, Ht || fold r in Ht, Hrc.
  { exists [MakedirsFailed dest]. rewrite Hr.
    split; [done|]. split; [vm_compute; lia|]. split; [by repeat constructor|].
    split; [by intros ?? ?%list_elem_of_singleton|].
    split; [by intros ?? ?%list_elem_of_singleton|].
    by intros ?%list_elem_of_singleton. }
  fold marker in Hrc.
  set (mirror := rsync_cmd_line _ _ _) in *.
  exists (pre ++ Launch mirror rc :: post). split; [exact Ht|].
  assert (∀ e, e ∈ pre → e = Makedirs dest) as Hin.
  { intros e. destruct Hpre as [[-> _]|[-> _]];
      [by intros ?%elem_of_nil | by intros ?%list_elem_of_singleton]. }
  assert (filter (λ e, is_mirror e = true) pre = []
          ∧ Forall (λ e, is_clone e = false) pre
          ∧ Forall (λ e, is_touch e = false) pre) as (Hfm & Hfc & Hft).
  { destruct Hpre as [[-> _]|[-> _]]; by repeat constructor. }
  assert (is_mirror (Launch mirror rc) = true) as Hm by done.
  destruct rc as [code|e].
  - destruct (Z.gtb_spec code 0) as [Hcode|Hcode].
    + destruct Hrc as [Hr ->]. rewrite Hr.
      split. { rewrite filter_app, Hfm. vm_compute. lia. }
      split. { apply Forall_app. split; [done|]. by repeat constructor. }
      split.
      { intros c k [Hk%Hin|Hk%list_elem_of_singleton]%elem_of_app; [done|].
        injection Hk as -> ->. split; [done|lia]. }
      split.
      { intros c k [Hk%Hin|Hk%list_elem_of_singleton]%elem_of_app; done. }
      split; [lia|]. split.
      { exists mirror, code. split; [|lia]. apply elem_of_app. right. by left. }
      split; [|lia].
      exists (pre ++ [Launch mirror (Returned code)]).
      destruct (Z.eqb_spec code 0) as [|_]; [lia|]. rewrite app_nil_r.
      split; [done|]. apply Forall_app. split; [done|]. by repeat constructor.
    + destruct Hrc as [(Hr & -> & Hmark)|[(Hr & ->)|(Hr & ->)]]; rewrite Hr.
      * split. { rewrite filter_app, Hfm. vm_compute. lia. }
        split. { apply Forall_app. split; [done|]. by repeat constructor. }
        split.
        { intros c k [Hk%Hin|Hk]%elem_of_app; [done|].
          apply elem_of_cons in Hk as [Hk|Hk].
          - injection Hk as -> ->. split; [lia|]. by left.
          - not_in Hk. }
        split.
        { intros c k [Hk%Hin|Hk]%elem_of_app; [done|].
          not_in Hk. }
        split; [lia|]. split.
        { exists mirror, code. split; [|lia]. apply elem_of_app. right. by left. }
        split; [|done].
        exists (pre ++ [Launch mirror (Returned code)]). cbn [Z.eqb].
        split; [by rewrite <- app_assoc|].
        apply Forall_app. split; [done|]. by repeat constructor.
      * split. { rewrite filter_app, Hfm. vm_compute. lia. }
        split. { apply Forall_app. split; [done|]. by repeat constructor. }
        split.
        { intros c k [Hk%Hin|Hk]%elem_of_app; [done|].
          apply elem_of_cons in Hk as [Hk|Hk].
          - injection Hk as -> ->. split; [lia|]. intros _. right.
            exists (cur +:+ "/"). split; [done|].
            apply elem_of_app. right. right. by left.
          - not_in Hk. }
        split.
        { intros c k [Hk%Hin|Hk]%elem_of_app; [done|].
          not_in Hk. }
        intros [Hk%Hin|Hk]%elem_of_app; [done|].
        not_in Hk.
      * split. { rewrite filter_app, Hfm. vm_compute. lia. }
        split. { apply Forall_app. split; [done|]. by repeat constructor. }
        split.
        { intros c k [Hk%Hin|Hk]%elem_of_app; [done|].
          apply elem_of_cons in Hk as [Hk|Hk].
          - injection Hk as -> ->. split; [lia|]. intros _. right.
            exists marker. split; [done|].
            apply elem_of_app. right. right. right. by left.
          - not_in Hk. }
        split.
        { intros c k [Hk%Hin|Hk]%elem_of_app; [done|].
          not_in Hk. }
        intros [Hk%Hin|Hk]%elem_of_app; [done|].
        not_in Hk.
  - destruct Hrc as [Hr ->]. rewrite Hr.
    split. { rewrite filter_app, Hfm. vm_compute. lia. }
    split. { apply Forall_app. split; [done|]. by repeat constructor. }
    split.
    { intros c k [Hk%Hin|Hk%list_elem_of_singleton]%elem_of_app; done. }
    split.
    { intros c k [Hk%Hin|Hk%list_elem_of_singleton]%elem_of_app; [done|].
      by injection Hk as -> ->. }
    intros [Hk%Hin|Hk%list_elem_of_singleton]%elem_of_app; done.
Qed.
End sync_result.

Section sync_summary.
Context (env : Env).
Implicit Types (w : World) (source dest name tag cur : string)
  (excludes : list string).

(** A summary of [sync] in terms of the events [l] it adds: at most one
    mirroring launch; a positive return code of either command is the
    result; a launch that raises is the end; a mirroring launch with any
    other code gives 0 unless a [touch] raises; the two [touch] calls end
    the events exactly when the result is 0. *)
Lemma sync_summary source dest name tag excludes w :
  let cur := new_snapshot env dest name tag w in
  let marker := os_path_join (cur +:+ "/")
                  ("_backup_" +:+ strftime "%Y%m%d_%I%M%S"
                                    (time_localtime env (S (clock w)))) in
  let r := sync env source dest name tag excludes w in
  ∃ l, trace r.2 = trace w ++ l
    ∧ (length (filter (λ e, is_mirror e = true) l) ≤ 1)%nat
    ∧ (∀ cmd_line code, Launch cmd_line (Returned code) ∈ l →
         0 < code → r.1 = Returned code)
    ∧ (∀ cmd_line code, Launch cmd_line (Returned code) ∈ l →
         is_mirror (Launch cmd_line (Returned code)) = true → code ≤ 0 →
         r.1 = Returned 0 ∨ ∃ p, r.1 = Raised (OSError p) ∧ TouchFailed p ∈ l)
    ∧ (∀ cmd_line e, Launch cmd_line (Raised e) ∈ l → r.1 = Raised e)
    ∧ match r.1 with
      | Returned res =>
          0 ≤ res
          ∧ (∃ cmd_line code, Launch cmd_line (Returned code) ∈ l
                              ∧ res = Z.max code 0)
          ∧ (∃ l0, l = l0 ++ (if res =? 0
                              then [Touched (cur +:+ "/"); Touched marker] else [])
                   ∧ Forall (λ e, is_touch e = false) l0)
          ∧ (res = 0 → os_path_exists marker (fs r.2) = true)
      | Raised e => Touched marker ∉ l
      end.
Proof.
  intros cur marker r.
  destruct (last (generations dest name tag (fs w))) as [last_snapshot|] eqn:Hl.
  2:{ subst r.
      rewrite (sync_without_predecessor env source dest name tag excludes w Hl).
      fold cur.
      destruct (sync_mirror_summary env source dest excludes cur (tick w))
        as (l & Ht & Hone & _ & Hcode & Hexn & Hres).
      cbn [tick clock trace] in Ht, Hres. fold marker in Hres.
      exists l. split; [exact Ht|]. split; [exact Hone|].
      split; [intros c k Hk; by apply (Hcode c k Hk)|].
      split; [intros c k Hk _; by apply (Hcode c k Hk)|].
      split; [exact Hexn | exact Hres]. }
  subst r.
  rewrite (sync_with_predecessor env source dest name tag excludes w _ Hl).
  cbv zeta. fold cur.
  set (clone := cp_cmd_line last_snapshot cur).
  set (rc := (popen_wait env clone (fs w)).1).
  set (w1 := emit _ _).
  assert (trace w1 = trace w ++ [Launch clone rc]) as Hw1 by done.
  assert (is_mirror (Launch clone rc) = false) as Hnm by done.
  destruct rc as [code|e] eqn:Erc.
  2:{ exists [Launch clone (Raised e)]. cbn [fst snd]. split; [exact Hw1|].
      split; [vm_compute; lia|].
      split; [by intros ?? ?%list_elem_of_singleton|].
      split; [by intros ?? ?%list_elem_of_singleton|].
      split.
      { intros c k Hk%list_elem_of_singleton. by injection Hk as -> ->. }
      by intros ?%list_elem_of_singleton. }
  destruct (Z.gtb_spec code 0) as [Hcode|Hcode].
  { exists [Launch clone (Returned code)]. cbn [fst snd]. split; [exact Hw1|].
    split; [vm_compute; lia|].
    split.
    { intros c k Hk%list_elem_of_singleton. by injection Hk as -> ->. }
    split.
    { intros c k Hk%list_elem_of_singleton. injection Hk as -> ->. lia. }
    split; [by intros ?? ?%list_elem_of_singleton|].
    split; [lia|]. split.
    { exists clone, code. split; [by apply list_elem_of_singleton|lia]. }
    split; [|lia].
    exists [Launch clone (Returned code)].
    destruct (Z.eqb_spec code 0) as [|_]; [lia|]. by repeat constructor. }
  destruct (sync_mirror_summary env source dest excludes cur w1)
    as (l & Ht & Hone & _ & Hcodes & Hexn & Hres).
  change (clock w1) with (S (clock w)) in Hres. fold marker in Hres.
  exists (Launch clone (Returned code) :: l). split.
  { rewrite Ht, Hw1. by rewrite <- app_assoc. }
  split. { rewrite filter_cons_False by (by rewrite Hnm). exact Hone. }
  split.
  { intros c k [Hk|Hk]%elem_of_cons Hpos.
    - injection Hk as -> ->. lia.
    - by apply (Hcodes c k Hk). }
  split.
  { intros c k [Hk|Hk]%elem_of_cons Hm Hle.
    - injection Hk as -> ->. by rewrite Hnm in Hm.
    - destruct (Hcodes c k Hk) as [_ [H|(p & H & Hp)]]; [done|by left|].
      right. exists p. split; [done|]. by right. }
  split.
  { intros c k [Hk|Hk]%elem_of_cons; [done|]. by apply (Hexn c k). }
  destruct (sync_mirror env source dest excludes cur w1).1 as [res|e].
  - destruct Hres as (H0 & (c & k & Hk & Hmax) & (l0 & -> & Hl0) & Hmark).
    split; [done|]. split.
    { exists c, k. split; [by right|done]. }
    split; [|done].
    exists (Launch clone (Returned code) :: l0). split; [done|].
    constructor; done.
  - intros [Hk|Hk]%elem_of_cons; [done|]. by apply Hres.
Qed.
End sync_summary.

(** C6. The return code test of [sync] is [result > 0] (lines 188, 211), so
    a mirroring step that ends with a negative return code (the value
    [wait] gives for a child killed by a signal; here -9) is taken for a
    success: [sync] touches the generation and its completion marker and
    returns 0. *)
Theorem sync_returns_zero_when_rsync_is_killed :
  (sync env_mirror_killed "/home/" "/snap" "home" "daily" [] empty_world).1 = Returned 0
  ∧ trace (sync env_mirror_killed "/home/" "/snap" "home" "daily" [] empty_world).2
    = [Launch (rsync_cmd_line [] "/home/" (gen11 +:+ "/")) (Returned (-9));
       Touched (gen11 +:+ "/");
       Touched (gen11 +:+ "/_backup_20240101_110000")].
Proof. vm_compute. split; reflexivity. Qed.

(** C8. For the same reason a copy-link step that ends with a negative
    return code (here -9) does not stop [sync]: the mirroring step is
    launched after it, and [sync] returns what the mirroring part returns. *)
Theorem sync_mirrors_after_killed_clone :
  (sync env_clone_killed "/home/" "/snap" "home" "daily" [] sample_world).1 = Returned 0
  ∧ trace (sync env_clone_killed "/home/" "/snap" "home" "daily" [] sample_world).2
    = [Launch (cp_cmd_line gen10 gen11) (Returned (-9));
       Launch (rsync_cmd_line [] "/home/" (gen11 +:+ "/")) (Returned 0);
       Touched (gen11 +:+ "/");
       Touched (gen11 +:+ "/_backup_20240101_110000")].
Proof. vm_compute. split; reflexivity. Qed.

(** ** The completion marker and the frame of [sync] *)

Section sync_frame.
Context (env : Env).
Implicit Types (w : World) (source dest name tag cur : string)
  (excludes : list string).

Lemma bind_subseteq {A B} (m : M A) (k : A → M B) w :
  fs w ⊆ fs (m w).2 → (∀ a w', fs w' ⊆ fs (k a w').2) →
  fs w ⊆ fs (bind m k w).2.
Proof.
  intros Hm Hk. rewrite bind_unfold.
  destruct (m w) as [[a|e] w']; cbn [snd] in *; [|done].
  etrans; [exact Hm | apply Hk].
Qed.

Lemma before_mirror_subseteq dest w : fs w ⊆ fs (before_mirror env dest w).2.
Proof.
  by destruct (before_mirror_cases env dest w)
    as [(w0 & -> & _ & ? & _)|(e & w0 & -> & _ & ? & _)].
Qed.

Lemma sync_mirror_subseteq source dest excludes cur w :
  (∀ cmd_line f, f ⊆ (popen_wait env cmd_line f).2) →
  fs w ⊆ fs (sync_mirror env source dest excludes cur w).2.
Proof.
  intros Hmono. unfold sync_mirror.
  apply bind_subseteq; [apply before_mirror_subseteq|]. intros _ w0.
  apply bind_subseteq.
  { unfold launch_command. pose proof (Hmono (rsync_cmd_line excludes
      (normalize_source source) (cur +:+ "/")) (fs w0)) as H.
    by destruct (popen_wait env _ (fs w0)). }
  intros code w1. destruct (code >? 0); [done|].
  apply bind_subseteq; [apply touch_subseteq|]. intros _ w2.
  apply bind_subseteq; [done|]. intros date w3.
  apply bind_subseteq; [apply touch_subseteq|]. done.
Qed.
End sync_frame.

(** X12. When [sync] returns, its result is not negative; it has touched
    the new generation and its completion marker exactly when the result is
    0, as the last two things it did, and then the marker exists; with any
    other result it has touched nothing.  When [sync] raises, the marker has
    not been touched. *)
Theorem sync_marks_completion_iff_zero (env : Env) (source dest name tag : string)
    (excludes : list string) (w : World) :
  let r := sync env source dest name tag excludes w in
  let cur := new_snapshot env dest name tag w in
  let marker := os_path_join (cur +:+ "/")
                  ("_backup_" +:+ strftime "%Y%m%d_%I%M%S"
                                    (time_localtime env (S (clock w)))) in
  (∀ res, r.1 = Returned res →
     0 ≤ res
     ∧ (∃ l, Forall (λ e, is_touch e = false) l
             ∧ trace r.2
               = trace w ++ l
                   ++ (if res =? 0 then [Touched (cur +:+ "/"); Touched marker]
                       else []))
     ∧ (res = 0 → os_path_exists marker (fs r.2) = true))
  ∧ (∀ e, r.1 = Raised e →
       ∃ l, trace r.2 = trace w ++ l ∧ Touched marker ∉ l).
Proof.
  intros r cur marker.
  destruct (sync_summary env source dest name tag excludes w)
    as (l & Ht & _ & _ & _ & _ & Hres).
  fold r in Ht, Hres. fold cur in Hres. fold marker in Hres.
  split.
  - intros res Hr. rewrite Hr in Hres.
    destruct Hres as (H0 & _ & (l0 & -> & Hl0) & Hmark).
    split; [done|]. split; [|done]. by exists l0.
  - intros e Hr. rewrite Hr in Hres. by exists l.
Qed.

Lemma sync_marks_completion_iff_zero_witness :
  (sync env_all_well "/home/" "/snap" "home" "daily" [] sample_world).1 = Returned 0
  ∧ os_path_exists (gen11 +:+ "/_backup_20240101_110000")
      (fs (sync env_all_well "/home/" "/snap" "home" "daily" [] sample_world).2) = true.
Proof.
  split; [reflexivity|].
  destruct (sync_marks_completion_iff_zero env_all_well "/home/" "/snap" "home" "daily"
              [] sample_world) as [H _].
  destruct (H 0) as (_ & _ & Hm); [reflexivity|].
  apply Hm. reflexivity.
Defined.

(** X13. [sync] removes nothing and changes no existing node by itself: if
    the commands it launches keep every node of the file system, then every
    node that existed before [sync] exists unchanged afterwards, whether
    [sync] returns or raises. *)
Theorem sync_keeps_what_the_commands_keep (env : Env) (source dest name tag : string)
    (excludes : list string) (w : World) :
  (∀ cmd_line f, f ⊆ (popen_wait env cmd_line f).2) →
  fs w ⊆ fs (sync env source dest name tag excludes w).2.
Proof.
  intros Hmono.
  destruct (last (generations dest name tag (fs w))) as [last_snapshot|] eqn:Hl.
  - rewrite (sync_with_predecessor env source dest name tag excludes w _ Hl).
    cbv zeta.
    set (cmd_line := cp_cmd_line _ _).
    pose proof (Hmono cmd_line (fs w)) as Hc.
    destruct (popen_wait env cmd_line (fs w)).1 as [code|e]; [|done].
    destruct (_ >? 0); [done|].
    etrans; [|apply sync_mirror_subseteq, Hmono]. done.
  - rewrite (sync_without_predecessor env source dest name tag excludes w Hl).
    by apply (sync_mirror_subseteq env source dest excludes _ (tick w)).
Qed.

Lemma sync_keeps_what_the_commands_keep_witness :
  sample_fs ⊆ fs (sync env_inert "/home/" "/snap" "home" "daily" [] sample_world).2.
Proof.
  apply (sync_keeps_what_the_commands_keep env_inert "/home/" "/snap" "home" "daily"
           [] sample_world).
  intros cmd_line f. reflexivity.
Defined.

(** ** Positive return codes *)

(** X16. A positive return code of the copy-link step ends [sync] at once:
    [sync] returns that code, the [cp] launch is the only thing it did, and
    the file system is as [cp] left it; no mirroring is started and nothing
    is touched. *)
Theorem positive_clone_code_ends_sync (env : Env) (source dest name tag : string)
    (excludes : list string) (w : World) (last_snapshot : string) (code : Z) :
  last (generations dest name tag (fs w)) = Some last_snapshot →
  let cmd_line := cp_cmd_line last_snapshot (new_snapshot env dest name tag w) in
  (popen_wait env cmd_line (fs w)).1 = Returned code →
  0 < code →
  sync env source dest name tag excludes w
  = (Returned code,
     {| fs := (popen_wait env cmd_line (fs w)).2; clock := S (clock w);
        trace := trace w ++ [Launch cmd_line (Returned code)] |}).
Proof.
  intros Hl cmd_line Hrc Hc.
  rewrite (sync_with_predecessor env source dest name tag excludes w _ Hl).
  cbv zeta. fold cmd_line. rewrite Hrc.
  by destruct (Z.gtb_spec code 0) as [_|]; [|lia].
Qed.

Lemma positive_clone_code_ends_sync_witness :
  (sync env_clone_fails "/home/" "/snap" "home" "daily" [] sample_world).1 = Returned 1
  ∧ trace (sync env_clone_fails "/home/" "/snap" "home" "daily" [] sample_world).2
    = [Launch (cp_cmd_line gen10 gen11) (Returned 1)].
Proof.
  rewrite (positive_clone_code_ends_sync env_clone_fails "/home/" "/snap" "home" "daily"
             [] sample_world gen10 1).
  - split; reflexivity.
  - vm_compute. reflexivity.
  - vm_compute. reflexivity.
  - lia.
Defined.

(** X17. [sync] launches the mirroring command at most once, and its return
    code decides the result when it is not negative: a positive code is the
    result of [sync], and code 0 gives the result 0 unless one of the two
    [touch] calls that follow raises. *)
Theorem mirror_code_is_the_result (env : Env) (source dest name tag : string)
    (excludes : list string) (w : World) :
  let r := sync env source dest name tag excludes w in
  ∃ l, trace r.2 = trace w ++ l
       ∧ (length (filter (λ e, is_mirror e = true) l) ≤ 1)%nat
       ∧ ∀ cmd_line code,
           Launch cmd_line (Returned code) ∈ l →
           is_mirror (Launch cmd_line (Returned code)) = true →
           (0 < code → r.1 = Returned code)
           ∧ (code = 0 →
              r.1 = Returned 0
              ∨ ∃ p, r.1 = Raised (OSError p) ∧ TouchFailed p ∈ l).
Proof.
  intros r.
  destruct (sync_summary env source dest name tag excludes w)
    as (l & Ht & Hone & Hpos & Hzero & _).
  exists l. split; [exact Ht|]. split; [exact Hone|].
  intros cmd_line code Hin Hm. split.
  - by apply (Hpos cmd_line).
  - intros ->. by apply (Hzero cmd_line 0).
Qed.

(** ** The whole run *)

Section path_prefixes.
Implicit Types (a b p q g : string).

Lemma startswith_comparable a b q :
  Str.startswith a q = true → Str.startswith b q = true →
  Str.startswith a b = true ∨ Str.startswith b a = true.
Proof.
  revert a b. induction q as [|c q IH]; intros [|x a] [|y b]; cbn; auto; try done.
  intros [Hx Ha]%andb_true_iff [Hy Hb]%andb_true_iff.
  apply Ascii.eqb_eq in Hx as ->. apply Ascii.eqb_eq in Hy as ->.
  rewrite Ascii.eqb_refl. cbn. by apply IH.
Qed.

Lemma startswith_sep_sep p g :
  Str.startswith (p +:+ "/") (g +:+ "/") = true →
  g = p ∨ Str.startswith (p +:+ "/") g = true.
Proof.
  revert g. induction p as [|x p IH]; intros [|y g].
  - by left.
  - change ("" +:+ "/") with (String sep ""). rewrite append_cons.
    cbn [Str.startswith]. intros H. right. exact H.
  - rewrite append_cons. change ("" +:+ "/") with (String sep "").
    cbn [Str.startswith]. intros [_ H]%andb_true_iff. by destruct p.
  - rewrite !append_cons. cbn [Str.startswith]. intros [Hx H]%andb_true_iff.
    rewrite Hx. cbn [andb].
    destruct (IH _ H) as [->|H']; [left|by right].
    apply Ascii.eqb_eq in Hx. by subst.
Qed.

(** Two directories that both hold [q] hold one another. *)
Lemma is_under_comparable p g q :
  is_under p q = true → is_under g q = true →
  is_under p g = true ∨ is_under g p = true.
Proof.
  unfold is_under at 1 2.
  intros [Hp%String.eqb_eq|Hp]%orb_true_iff [Hg%String.eqb_eq|Hg]%orb_true_iff.
  - subst. left. apply is_under_refl.
  - subst q. right. unfold is_under. rewrite Hg. apply orb_true_r.
  - subst q. left. unfold is_under. rewrite Hp. apply orb_true_r.
  - destruct (startswith_comparable _ _ _ Hp Hg) as [H|H];
      apply startswith_sep_sep in H as [->|H].
    + left. apply is_under_refl.
    + left. unfold is_under. rewrite H. apply orb_true_r.
    + left. apply is_under_refl.
    + right. unfold is_under. rewrite H. apply orb_true_r.
Qed.
End path_prefixes.

Section main_facts.
Context (env : Env) (args : Args).
Implicit Types (w : World).

Lemma main_past_guards w :
  guards_pass env args w →
  main env args w =
    match prepare_dest env args w with
    | (Raised e, w0) => (Uncaught e, w0)
    | (Returned _, w0) => main_phases env args w0
    end.
Proof.
  intros (Hlinux & Hlock & Hdest). unfold main, prepare_dest, before_mirror.
  rewrite Hlinux, Hlock. cbn [negb String.eqb emit fs].
  change (String.eqb "linux" "linux") with true. cbn [negb].
  destruct (os_path_exists (args_dest args) (fs w)) eqn:He; cbn [negb]; [|done].
  by rewrite Hdest.
Qed.

(** Past the guards and with the destination there, [main] calls [sync],
    then, if [sync] returned, [rotate], then removes the lock file and exits
    with the result of [sync]; an exception of any of them ends the run. *)
Lemma main_run w :
  guards_pass env args w → dest_ready env args w →
  main env args w =
    match sync_of_run env args w with
    | (Raised e, w1) => (Uncaught e, w1)
    | (Returned res, w1) =>
        match rotate env (args_dest args) (args_name args) (args_tag args)
                (args_keep args) w1 with
        | (Raised e, w2) => (Uncaught e, w2)
        | (Returned _, w2) =>
            if remove_raises env (lock_file_of (args_name args))
            then (Uncaught (OSError (lock_file_of (args_name args))),
                  emit (RemoveFailed (lock_file_of (args_name args))) w2)
            else (Exit res, emit (Removed (lock_file_of (args_name args))) w2)
        end
    end.
Proof.
  intros Hg Hr. rewrite (main_past_guards w Hg).
  unfold dest_ready in Hr. unfold sync_of_run, at_sync.
  destruct (prepare_dest env args w) as [[[]|e] w0]; [|done].
  cbn [snd]. unfold main_phases.
  destruct (sync env _ _ _ _ _ w0) as [[res|e] w1]; [|done].
  destruct (rotate env _ _ _ _ w1) as [[[]|e] w2]; [|done].
  unfold os_remove. by destruct (remove_raises env _).
Qed.

Lemma main_not_ready w :
  guards_pass env args w → ¬ dest_ready env args w →
  ∃ e, main env args w = (Uncaught e, at_sync env args w).
Proof.
  intros Hg Hr. rewrite (main_past_guards w Hg).
  unfold dest_ready in Hr. unfold at_sync.
  destruct (prepare_dest env args w) as [[[]|e] w0]; [done|]. by exists e.
Qed.

Lemma trace_at_sync w :
  ∃ l, trace (at_sync env args w)
       = trace w ++ Locked (lock_file_of (args_name args)) :: l.
Proof.
  unfold at_sync, prepare_dest.
  destruct (before_mirror_trace env (args_dest args)
              (emit (Locked (lock_file_of (args_name args))) w)) as (pre & -> & _).
  exists pre. cbn [emit trace]. by rewrite <- app_assoc.
Qed.

(** The ways past the guards and the ways to fail them. *)
Lemma main_cases w :
  guards_pass env args w
  ∨ (¬ guards_pass env args w
     ∧ main env args w = (Exit 1, w))
  ∨ (¬ guards_pass env args w
     ∧ main env args w = (Exit 1, emit (Locked (lock_file_of (args_name args))) w)).
Proof.
  destruct (String.eqb_spec (Str.lower (platform_system env)) "linux") as [Hl|Hl].
  2:{ right. left. split; [by intros [? _]|]. unfold main.
      by destruct (String.eqb_spec (Str.lower (platform_system env)) "linux"). }
  destruct (lockf_ok env) eqn:Hk.
  2:{ right. left. split; [intros (_ & ? & _); congruence|]. unfold main.
      rewrite Hl, Hk. done. }
  destruct (os_path_exists (args_dest args) (fs w)) eqn:He.
  2:{ left. split; [done|]. split; [done|]. intros Hx. congruence. }
  destruct (os_path_isdir (args_dest args) (fs w)) eqn:Hd.
  { left. split; [done|]. split; [done|]. by intros _. }
  right. right. split.
  - intros (_ & _ & Hi). specialize (Hi He). congruence.
  - unfold main. rewrite Hl, Hk. cbn [negb emit fs].
    change (String.eqb "linux" "linux") with true. cbn [negb].
    by rewrite He, Hd.
Qed.
End main_facts.

(** C1, as the code has it. [main] calls [rotate] after [sync] whenever
    [sync] returns, whatever it returns, also the positive return code of a
    failed clone or mirror step: in every run that gets past the guards
    with the destination there, with [keep = k > 0] and the removals going
    through, the generations other than the last [k] of those that exist
    after [sync] are deleted, the lock file is removed and the run exits
    with the result of [sync].  Only an exception raised by [sync] keeps
    [rotate] from being called: it ends the run. *)
Theorem main_rotates_whatever_sync_returns (env : Env) (args : Args) (w : World) :
  guards_pass env args w →
  dest_ready env args w →
  let s := sync_of_run env args w in
  let gens := generations (args_dest args) (args_name args) (args_tag args) (fs s.2) in
  let delete_list := take (length gens - Z.to_nat (args_keep args)) gens in
  (∀ res,
     s.1 = Returned res →
     0 < args_keep args →
     Forall (removable env (fs s.2)) delete_list →
     remove_raises env (lock_file_of (args_name args)) = false →
     main env args w
       = (Exit res,
          {| fs := remove_all delete_list (fs s.2); clock := clock s.2;
             trace := trace s.2 ++ map Rmtree delete_list
                        ++ [Removed (lock_file_of (args_name args))] |})
     ∧ generations (args_dest args) (args_name args) (args_tag args)
         (fs (main env args w).2)
       = drop (length gens - Z.to_nat (args_keep args)) gens)
  ∧ (∀ e, s.1 = Raised e → main env args w = (Uncaught e, s.2)).
Proof.
  intros Hg Hd s gens delete_list. split.
  - intros res Hres Hk Hok Hlock.
    destruct (rotate_removes_oldest env (args_dest args) (args_name args) (args_tag args)
                (args_keep args) s.2) as [Hrot Hgen]; [lia | exact Hok |].
    assert (main env args w
      = (Exit res,
         {| fs := remove_all delete_list (fs s.2); clock := clock s.2;
            trace := trace s.2 ++ map Rmtree delete_list
                       ++ [Removed (lock_file_of (args_name args))] |})) as Hmain.
    { rewrite (main_run env args w Hg Hd). fold s.
      destruct s as [r w1]. cbn [fst snd] in *. subst r.
      rewrite Hrot, Hlock. unfold emit. cbn [fs clock trace]. by rewrite <- app_assoc. }
    split; [exact Hmain|]. rewrite Hmain. exact Hgen.
  - intros e He. rewrite (main_run env args w Hg Hd). fold s.
    destruct s as [r w1]. cbn [fst snd] in *. by subst r.
Qed.

(** C4, as the code has it. A removal that fails raises an exception that
    nothing catches: [rotate] stops at the first such entry of the delete
    list, the lock file is not removed, and the run ends with exit status 1
    whatever [sync] returned.  The entries before the failing one are gone;
    of the failing one the directory itself is still there (what was below
    it may be gone in part); the later entries of the delete list and the
    generations to keep are still there with everything below them. *)
Theorem failed_removal_ends_the_run (env : Env) (args : Args) (w : World)
    (l1 l2 : list string) (p : string) (res : Z) :
  guards_pass env args w →
  dest_ready env args w →
  let s := sync_of_run env args w in
  s.1 = Returned res →
  0 < args_keep args →
  let gens := generations (args_dest args) (args_name args) (args_tag args) (fs s.2) in
  let n := (length gens - Z.to_nat (args_keep args))%nat in
  take n gens = l1 ++ p :: l2 →
  Forall (removable env (fs s.2)) l1 →
  ¬ removable env (fs s.2) p →
  let m := main env args w in
  m.1 = Uncaught (OSError p)
  ∧ exit_status m.1 = 1
  ∧ trace m.2 = trace s.2 ++ map Rmtree l1 ++ [RmtreeFailed p]
  ∧ (∀ q, q ∈ l1 → fs m.2 !! q = None)
  ∧ fs m.2 !! p = fs s.2 !! p
  ∧ (∀ g q, g ∈ l2 ++ drop n gens → is_under g q = true →
            fs m.2 !! q = fs s.2 !! q)
  ∧ fs m.2 ⊆ fs s.2.
Proof.
  intros Hg Hd s Hres Hk gens n Hdl Hok Hbad m.
  assert (NoDup (l1 ++ p :: l2)) as Hnd.
  { rewrite <- Hdl. eapply sublist_NoDup; [apply NoDup_generations | apply sublist_take]. }
  pose proof (unnested_generations (args_dest args) (args_name args) (args_tag args)
                (fs s.2)) as Hung. fold gens in Hung.
  assert (unnested (l1 ++ p :: l2)) as Hun.
  { rewrite <- Hdl. intros a b Ha%subseteq_take Hb%subseteq_take. by apply Hung. }
  destruct (rmtree_each_stops env l1 p l2 s.2 Hnd Hun Hok Hbad)
    as (f & Hloop & Hsub & Hfp & Hout).
  assert (m = (Uncaught (OSError p),
               {| fs := f; clock := clock s.2;
                  trace := trace s.2 ++ map Rmtree l1 ++ [RmtreeFailed p] |}))
    as Hmain.
  { subst m. rewrite (main_run env args w Hg Hd). fold s.
    destruct s as [r w1] eqn:Es. cbn [fst snd] in *. subst r.
    rewrite rotate_unfold by lia. fold gens. fold n. by rewrite Hdl, Hloop. }
  rewrite Hmain. cbn [fst snd fs trace].
  split; [done|]. split; [done|]. split; [done|].
  split.
  { intros q Hq. eapply lookup_weaken_None; [|exact Hsub].
    eapply lookup_remove_all_inside; [exact Hq | apply is_under_refl]. }
  split; [exact Hfp|].
  split; [|etrans; [exact Hsub | apply remove_all_subseteq]].
  intros g q Hgq Hu.
  assert (g ∈ gens ∧ g ∉ l1 ++ [p]) as [Hgg Hgn].
  { pose proof (NoDup_generations (args_dest args) (args_name args) (args_tag args)
                  (fs s.2)) as Hndg. fold gens in Hndg.
    rewrite <- (take_drop n gens), Hdl in Hndg.
    rewrite <- (take_drop n gens), Hdl.
    replace ((l1 ++ p :: l2) ++ drop n gens)
      with ((l1 ++ [p]) ++ (l2 ++ drop n gens)) in *
      by (by rewrite <- !app_assoc).
    split; [apply elem_of_app; by right|].
    apply NoDup_app in Hndg as (_ & Hdisj & _).
    intros Hx. by apply (Hdisj g Hx). }
  assert (∀ a, a ∈ l1 ++ [p] → is_under a q = false) as Hfree.
  { intros a Ha. destruct (is_under a q) eqn:E; [|done].
    assert (a ∈ gens) as Hag.
    { rewrite <- (take_drop n gens), Hdl.
      apply elem_of_app in Ha as [Ha|Ha%list_elem_of_singleton].
      - apply elem_of_app. left. apply elem_of_app. by left.
      - subst a. apply elem_of_app. left. apply elem_of_app. right. by left. }
    destruct (is_under_comparable _ _ _ E Hu) as [H|H].
    - apply Hung in H; [|done..]. by subst g.
    - apply Hung in H; [|done..]. by subst g. }
  rewrite Hout by (apply Hfree, elem_of_app; right; by left).
  apply lookup_remove_all_outside. intros a Ha. apply Hfree, elem_of_app. by left.
Qed.

(** C5, as the code has it. The exit status is 1 on a non-Linux host, on
    lock contention and on a destination that exists and is not a
    directory, and 1 again whenever an exception ends the run: the
    destination cannot be made, [sync] or [rotate] raises, or the lock file
    cannot be removed.  In a run that none of these ends, the exit status is
    the result of [sync]: a positive return code of the clone or of the
    mirror command is the exit status, which need not be 1; when every
    command launched returns 0, it is 0. *)
Theorem exit_status_of_run (env : Env) (args : Args) (w : World) :
  let o := (main env args w).1 in
  let s := sync_of_run env args w in
  let lock_file := lock_file_of (args_name args) in
  (Str.lower (platform_system env) ≠ "linux" → o = Exit 1)
  ∧ (Str.lower (platform_system env) = "linux" → lockf_ok env = false → o = Exit 1)
  ∧ (Str.lower (platform_system env) = "linux" → lockf_ok env = true →
     os_path_exists (args_dest args) (fs w) = true →
     os_path_isdir (args_dest args) (fs w) = false → o = Exit 1)
  ∧ (guards_pass env args w →
     ¬ dest_ready env args w
     ∨ (∃ e, s.1 = Raised e)
     ∨ (∃ e, (rotate_of_run env args w).1 = Raised e)
     ∨ remove_raises env lock_file = true →
     exit_status o = 1)
  ∧ (guards_pass env args w →
     dest_ready env args w →
     ∀ res,
       s.1 = Returned res →
       (rotate_of_run env args w).1 = Returned tt →
       remove_raises env lock_file = false →
       o = Exit res
       ∧ ∃ l, trace s.2 = trace (at_sync env args w) ++ l
              ∧ (∀ cmd_line code,
                   Launch cmd_line (Returned code) ∈ l → 0 < code →
                   exit_status o = code)
              ∧ ((∀ cmd_line rc, Launch cmd_line rc ∈ l → rc = Returned 0) →
                 exit_status o = 0)).
Proof.
  intros o s lock_file. split; [|split; [|split; [|split]]].
  - intros Hn. subst o. unfold main.
    destruct (String.eqb_spec (Str.lower (platform_system env)) "linux"); done.
  - intros Hl Hk. subst o. unfold main. rewrite Hl, Hk. done.
  - intros Hl Hk He Hd. subst o. unfold main. rewrite Hl, Hk.
    cbn [negb emit fs]. change (String.eqb "linux" "linux") with true. cbn [negb].
    by rewrite He, Hd.
  - intros Hg Hcause. subst o.
    destruct (decide (dest_ready env args w)) as [Hd|Hd].
    2:{ by destruct (main_not_ready env args w Hg Hd) as [e ->]. }
    rewrite (main_run env args w Hg Hd). fold s. unfold rotate_of_run in Hcause.
    fold s in Hcause. fold lock_file.
    destruct s as [[res|e] w1]; [|done]. cbn [fst snd] in Hcause.
    destruct (rotate env _ _ _ _ w1) as [[[]|e] w2]; [|done]. cbn [fst] in Hcause.
    destruct (remove_raises env lock_file); [done|].
    destruct Hcause as [?|[[e ?]|[[e ?]|?]]]; done.
  - intros Hg Hd res Hres Hrot Hlock. subst o.
    rewrite (main_run env args w Hg Hd). fold s. unfold rotate_of_run in Hrot.
    fold s in Hrot. fold lock_file. rewrite Hlock.
    destruct (sync_summary env (args_source args) (args_dest args) (args_name args)
                (args_tag args) (args_excludes args) (at_sync env args w))
      as (l & Ht & _ & Hpos & _ & _ & Hsum).
    fold (sync_of_run env args w) in Ht, Hpos, Hsum. fold s in Ht, Hpos, Hsum.
    rewrite Hres in Hsum. destruct Hsum as (_ & (c & k & Hk & Hmax) & _).
    destruct s as [r w1]. cbn [fst snd] in *. subst r.
    destruct (rotate env _ _ _ _ w1) as [[[]|e] w2]; [|done].
    cbn [fst exit_status]. split; [done|].
    exists l. split; [exact Ht|]. split.
    + intros cmd_line code Hin Hc. specialize (Hpos _ _ Hin Hc). congruence.
    + intros Hall. specialize (Hall _ _ Hk). injection Hall as ->. lia.
Qed.

Lemma guards_pass_sample (now : struct_time) (cp_code rsync_code keep : Z)
    (raises : string → bool) (w : World) :
  os_path_isdir "/snap" (fs w) = true →
  guards_pass (sample_env now cp_code rsync_code raises) (sample_args keep) w.
Proof. intros Hd. repeat split. intros _. exact Hd. Qed.

(** C1, counterexample. At 11:00 [rsync] returns 23, so [sync] returns 23;
    [rotate] runs all the same and with [keep = 1] removes the three older
    generations. *)
Lemma rotation_follows_failed_sync :
  (sync_of_run env_mirror_fails (sample_args 1) sample_world).1 = Returned 23
  ∧ trace (main env_mirror_fails (sample_args 1) sample_world).2
    = [Locked "/tmp/snapback_home.lock";
       Launch (cp_cmd_line gen10 gen11) (Returned 0);
       Launch (rsync_cmd_line ["*.tmp"] "/home/" (gen11 +:+ "/")) (Returned 23);
       Rmtree gen08; Rmtree gen09; Rmtree gen10;
       Removed "/tmp/snapback_home.lock"]
  ∧ fs sample_world !! gen08 = Some Dir
  ∧ fs (main env_mirror_fails (sample_args 1) sample_world).2 !! gen08 = None.
Proof. vm_compute. repeat split; reflexivity. Qed.

Lemma main_rotates_whatever_sync_returns_witness :
  guards_pass env_mirror_fails (sample_args 1) sample_world
  ∧ dest_ready env_mirror_fails (sample_args 1) sample_world
  ∧ (sync_of_run env_mirror_fails (sample_args 1) sample_world).1 = Returned 23
  ∧ 0 < args_keep (sample_args 1)
  ∧ (main env_mirror_fails (sample_args 1) sample_world).1 = Exit 23
  ∧ generations "/snap" "home" "daily"
      (fs (main env_mirror_fails (sample_args 1) sample_world).2) = [gen11].
Proof.
  assert (guards_pass env_mirror_fails (sample_args 1) sample_world) as Hg.
  { apply guards_pass_sample. vm_compute. reflexivity. }
  assert (dest_ready env_mirror_fails (sample_args 1) sample_world) as Hd.
  { vm_compute. reflexivity. }
  assert (0 < args_keep (sample_args 1)) as Hk by (cbn; lia).
  destruct (main_rotates_whatever_sync_returns env_mirror_fails (sample_args 1)
              sample_world Hg Hd) as [Hrun _].
  destruct (Hrun 23) as [Hmain Hgen].
  { vm_compute. reflexivity. }
  { exact Hk. }
  { cbv zeta. apply (bool_decide_unpack _). vm_compute. exact I. }
  { reflexivity. }
  split; [exact Hg|]. split; [exact Hd|]. split; [vm_compute; reflexivity|].
  split; [exact Hk|]. split.
  - rewrite Hmain. reflexivity.
  - etransitivity; [exact Hgen|]. vm_compute. reflexivity.
Defined.

(** C4, counterexample. At 11:00 the Builder succeeds ([sync] returns 0);
    the delete list for [keep = 1] is the three older generations; removing
    the first raises, the run ends with exit status 1 and the other two,
    which rotation never reached, are still there. *)
Lemma failed_removal_stops_rotation :
  (sync_of_run env_removal_fails (sample_args 1) sample_world).1 = Returned 0
  ∧ slice_to
      (generations "/snap" "home" "daily"
         (fs (sync_of_run env_removal_fails (sample_args 1) sample_world).2))
      (- 1)
    = [gen08; gen09; gen10]
  ∧ (main env_removal_fails (sample_args 1) sample_world).1 = Uncaught (OSError gen08)
  ∧ exit_status (main env_removal_fails (sample_args 1) sample_world).1 = 1
  ∧ fs (main env_removal_fails (sample_args 1) sample_world).2 !! gen09 = Some Dir
  ∧ fs (main env_removal_fails (sample_args 1) sample_world).2 !! gen10 = Some Dir.
Proof. vm_compute. repeat split; reflexivity. Qed.

Lemma failed_removal_ends_the_run_witness :
  guards_pass env_second_removal_fails (sample_args 1) sample_world
  ∧ dest_ready env_second_removal_fails (sample_args 1) sample_world
  ∧ 0 < args_keep (sample_args 1)
  ∧ (main env_second_removal_fails (sample_args 1) sample_world).1
    = Uncaught (OSError gen09)
  ∧ exit_status (main env_second_removal_fails (sample_args 1) sample_world).1 = 1
  ∧ fs (main env_second_removal_fails (sample_args 1) sample_world).2 !! gen08 = None
  ∧ fs (main env_second_removal_fails (sample_args 1) sample_world).2 !! gen10
    = fs (sync_of_run env_second_removal_fails (sample_args 1) sample_world).2 !! gen10.
Proof.
  assert (guards_pass env_second_removal_fails (sample_args 1) sample_world) as Hg.
  { apply guards_pass_sample. vm_compute. reflexivity. }
  assert (dest_ready env_second_removal_fails (sample_args 1) sample_world) as Hd.
  { vm_compute. reflexivity. }
  assert (0 < args_keep (sample_args 1)) as Hk by (cbn; lia).
  destruct (failed_removal_ends_the_run env_second_removal_fails (sample_args 1)
              sample_world [gen08] [gen10] gen09 0 Hg Hd)
    as (Hmain & Hexit & _ & Hgone & _ & Hrest & _).
  { vm_compute. reflexivity. }
  { exact Hk. }
  { vm_compute. reflexivity. }
  { apply (bool_decide_unpack _). vm_compute. exact I. }
  { intros [_ Hr]. vm_compute in Hr. discriminate Hr. }
  split; [exact Hg|]. split; [exact Hd|]. split; [exact Hk|].
  split; [exact Hmain|]. split; [exact Hexit|]. split.
  - apply Hgone. apply list_elem_of_here.
  - apply (Hrest gen10); [apply list_elem_of_here | reflexivity].
Defined.

(** C5, counterexample. At 11:00 on an empty destination [rsync] returns
    23; the run exits with status 23, not 1. *)
Lemma exit_status_is_the_mirror_code :
  trace (sync_of_run env_mirror_fails (sample_args 0) empty_world).2
    = [Locked "/tmp/snapback_home.lock";
       Launch (rsync_cmd_line ["*.tmp"] "/home/" (gen11 +:+ "/")) (Returned 23)]
  ∧ (main env_mirror_fails (sample_args 0) empty_world).1 = Exit 23
  ∧ exit_status (main env_mirror_fails (sample_args 0) empty_world).1 ≠ 1.
Proof. vm_compute. repeat split; [reflexivity.. | discriminate]. Qed.

Lemma exit_status_of_run_witness :
  guards_pass env_mirror_fails (sample_args 0) empty_world
  ∧ dest_ready env_mirror_fails (sample_args 0) empty_world
  ∧ exit_status (main env_mirror_fails (sample_args 0) empty_world).1 = 23
  ∧ exit_status (main env_all_well (sample_args 0) file_world).1 = 1
  ∧ guards_pass env_all_well slash_args file_world
  ∧ exit_status (main env_all_well slash_args file_world).1 = 1.
Proof.
  assert (guards_pass env_mirror_fails (sample_args 0) empty_world) as Hg.
  { apply guards_pass_sample. vm_compute. reflexivity. }
  assert (dest_ready env_mirror_fails (sample_args 0) empty_world) as Hd.
  { vm_compute. reflexivity. }
  assert (guards_pass env_all_well slash_args file_world) as Hg'.
  { repeat split. intros He. vm_compute in He. discriminate He. }
  split; [exact Hg|]. split; [exact Hd|]. split; [|split; [|split; [exact Hg'|]]].
  - destruct (exit_status_of_run env_mirror_fails (sample_args 0) empty_world)
      as (_ & _ & _ & _ & Hrun).
    destruct (Hrun Hg Hd 23) as (_ & l & Ht & Hpos & _); [reflexivity..|].
    apply (Hpos (rsync_cmd_line ["*.tmp"] "/home/" (gen11 +:+ "/"))); [|lia].
    vm_compute in Ht. injection Ht as <-. apply list_elem_of_here.
  - destruct (exit_status_of_run env_all_well (sample_args 0) file_world)
      as (_ & _ & Hfile & _).
    rewrite Hfile; [reflexivity | vm_compute; reflexivity..].
  - destruct (exit_status_of_run env_all_well slash_args file_world)
      as (_ & _ & _ & Hexn & _).
    apply Hexn; [exact Hg'|]. left. intros Hr. vm_compute in Hr. discriminate Hr.
Defined.

(** C2. The timestamp of a generation name is made with
    ["%Y%m%d%I%M%S"], whose hour field [%I] is the hour on the 12-hour
    clock. 11:00 is earlier than 13:00 of the same day, yet it is encoded as
    [20240101110000] and 13:00 as [20240101010000], which sorts first. A run
    at 13:00 with [keep = 1] therefore names its generation so that it is
    the first of the enumeration, and rotation removes it together with the
    two oldest, keeping the generation of 10:00. *)
Theorem afternoon_timestamp_sorts_before_morning :
  valid_time (at_hour 11) = true ∧ valid_time (at_hour 13) = true
  ∧ earlier (at_hour 11) (at_hour 13) = true
  ∧ strftime "%Y%m%d%I%M%S" (at_hour 11) = "20240101110000"
  ∧ strftime "%Y%m%d%I%M%S" (at_hour 13) = "20240101010000"
  ∧ String.ltb (strftime "%Y%m%d%I%M%S" (at_hour 13))
               (strftime "%Y%m%d%I%M%S" (at_hour 11)) = true
  ∧ sorted [new_snapshot env_all_well "/snap" "home" "daily" empty_world;
            new_snapshot env_afternoon "/snap" "home" "daily" empty_world]
    = ["/snap/snapback_home_20240101010000_daily"; gen11]
  ∧ (main env_afternoon (sample_args 1) sample_world).1 = Exit 0
  ∧ generations "/snap" "home" "daily"
      (fs (main env_afternoon (sample_args 1) sample_world).2) = [gen10].
Proof. vm_compute. repeat split; reflexivity. Qed.

(** C3. [rotate] keeps the last [keep] entries of the enumeration in the
    order of their names, and the hour of a name is the one on the 12-hour
    clock (line 177), so the entries it keeps need not be the most recent
    ones.  After a run at 10:00 and a run at 13:00 of the same day the
    destination holds the two generations they made; the one made at 13:00
    is the more recent, yet its name sorts first, and [rotate] with
    [keep = 1] removes it and keeps the one made at 10:00. *)
Theorem rotation_removes_the_most_recent_generation :
  earlier (at_hour 10) (at_hour 13) = true
  ∧ new_snapshot env_morning "/snap" "home" "daily" empty_world = gen10
  ∧ new_snapshot env_afternoon "/snap" "home" "daily" empty_world = gen13
  ∧ generations "/snap" "home" "daily" (fs two_runs_world) = [gen13; gen10]
  ∧ (rotate env_all_well "/snap" "home" "daily" 1 two_runs_world).1 = Returned tt
  ∧ trace (rotate env_all_well "/snap" "home" "daily" 1 two_runs_world).2
    = trace two_runs_world ++ [Rmtree gen13]
  ∧ generations "/snap" "home" "daily"
      (fs (rotate env_all_well "/snap" "home" "daily" 1 two_runs_world).2)
    = [gen10]
  ∧ Z.of_nat (length (generations "/snap" "home" "daily"
                        (fs (rotate env_all_well "/snap" "home" "daily" 1
                               two_runs_world).2)))
    = Z.min 1 (Z.of_nat (length (generations "/snap" "home" "daily"
                                   (fs two_runs_world)))).
Proof. vm_compute. repeat split; reflexivity. Qed.

(** ** The guards and the exit status *)

(** X14. A run that fails a guard (the host is not Linux, the lock is held
    by someone else, or the destination exists and is not a directory) exits
    with status 1 and leaves the file system as it was: it launches no
    command and removes nothing; at most it has taken the lock. *)
Theorem failed_guard_leaves_the_file_system (env : Env) (args : Args) (w : World) :
  ¬ guards_pass env args w →
  (main env args w).1 = Exit 1
  ∧ fs (main env args w).2 = fs w
  ∧ (trace (main env args w).2 = trace w
     ∨ trace (main env args w).2 = trace w ++ [Locked (lock_file_of (args_name args))]).
Proof.
  intros Hng.
  destruct (main_cases env args w) as [Hg|[[_ ->]|[_ ->]]]; [done| |].
  - repeat split; by left.
  - repeat split; by right.
Qed.

Lemma failed_guard_leaves_the_file_system_witness :
  (main env_other_host (sample_args 1) sample_world).1 = Exit 1
  ∧ fs (main env_other_host (sample_args 1) sample_world).2 = sample_fs.
Proof.
  destruct (failed_guard_leaves_the_file_system env_other_host (sample_args 1)
              sample_world) as (He & Hf & _).
  - intros [Hl _]. vm_compute in Hl. discriminate Hl.
  - split; [exact He | exact Hf].
Defined.

(** X15. The exit status is never negative, and it is 0 only for a run that
    went all the way: the guards passed, the destination was there or was
    made, [sync] returned 0, [rotate] returned without raising, and the
    trace starts with taking the lock and ends with removing the lock
    file. *)
Theorem exit_status_zero_means_completed (env : Env) (args : Args) (w : World) :
  0 ≤ exit_status (main env args w).1
  ∧ (exit_status (main env args w).1 = 0 →
     guards_pass env args w
     ∧ dest_ready env args w
     ∧ (sync_of_run env args w).1 = Returned 0
     ∧ (∃ w2, rotate env (args_dest args) (args_name args) (args_tag args)
                (args_keep args) (sync_of_run env args w).2 = (Returned tt, w2))
     ∧ ∃ l, trace (main env args w).2
            = trace w ++ Locked (lock_file_of (args_name args)) :: l
                ++ [Removed (lock_file_of (args_name args))]).
Proof.
  destruct (main_cases env args w) as [Hg|[[_ ->]|[_ ->]]];
    [|split; cbn [fst exit_status]; [lia | intros Hz; discriminate Hz]..].
  destruct (decide (dest_ready env args w)) as [Hd|Hd].
  2:{ destruct (main_not_ready env args w Hg Hd) as [e ->].
      split; cbn [fst exit_status]; [lia | intros Hz; discriminate Hz]. }
  rewrite (main_run env args w Hg Hd).
  destruct (sync_summary env (args_source args) (args_dest args) (args_name args)
              (args_tag args) (args_excludes args) (at_sync env args w))
    as (ls & Hts & _ & _ & _ & _ & Hsum).
  fold (sync_of_run env args w) in Hts, Hsum.
  destruct (rotate_as_loop env (args_dest args) (args_name args) (args_tag args)
              (args_keep args) (sync_of_run env args w).2) as (l & _ & _ & Hrot).
  destruct (rmtree_each_trace env l (sync_of_run env args w).2)
    as (removed & failed & Htr & _ & _).
  rewrite <- Hrot in Htr.
  destruct (sync_of_run env args w) as [[res|e] w1]; cbn [fst snd] in *;
    [|split; cbn [fst exit_status]; [lia | intros Hz; discriminate Hz]].
  destruct Hsum as (Hnn & _).
  destruct (rotate env _ _ _ _ w1) as [[[]|e] w2] eqn:Hr;
    [|split; cbn [fst exit_status]; [lia | intros Hz; discriminate Hz]].
  destruct (remove_raises env _);
    [split; cbn [fst exit_status]; [lia | intros Hz; discriminate Hz]|].
  cbn [fst snd exit_status]. split; [lia|].
  intros ->. split; [exact Hg|]. split; [exact Hd|]. split; [done|].
  split; [by exists w2|].
  destruct (trace_at_sync env args w) as [la Hla].
  cbn [snd] in Htr. cbn [emit trace]. rewrite Htr, Hts, Hla.
  exists (la ++ ls ++ map Rmtree removed ++ map RmtreeFailed failed).
  rewrite <- !app_assoc. cbn [app]. by rewrite <- ?app_assoc.
Qed.

Lemma exit_status_zero_means_completed_witness :
  exit_status (main env_all_well (sample_args 2) sample_world).1 = 0
  ∧ (sync_of_run env_all_well (sample_args 2) sample_world).1 = Returned 0.
Proof.
  split; [reflexivity|].
  destruct (exit_status_zero_means_completed env_all_well (sample_args 2) sample_world)
    as [_ H].
  destruct H as (_ & _ & Hs & _); [vm_compute; reflexivity | exact Hs].
Defined.

(** * Further properties: timestamps, patterns and single calls *)

(** ** The timestamp of a generation name *)

Section timestamp_facts.
Implicit Types (t : struct_time) (s : string) (x y a b : Z).

Lemma strftime_timestamp t :
  strftime "%Y%m%d%I%M%S" t
  = decimal (tm_year t) +:+ pad2 (tm_mon t) +:+ pad2 (tm_mday t)
      +:+ pad2 (hour12 (tm_hour t)) +:+ pad2 (tm_min t) +:+ pad2 (tm_sec t).
Proof. reflexivity. Qed.

Lemma N_of_digit x : N_of_ascii (digit x) = (48 + Z.to_N (x mod 10))%N.
Proof.
  unfold digit. apply N_ascii_embedding.
  pose proof (Z.mod_pos_bound x 10). lia.
Qed.

Lemma digit_congr x y : x mod 10 = y mod 10 → digit x = digit y.
Proof. unfold digit. by intros ->. Qed.

Lemma digit_compare x y :
  Ascii.compare (digit x) (digit y) = (x mod 10 ?= y mod 10).
Proof.
  unfold Ascii.compare. rewrite !N_of_digit.
  pose proof (Z.mod_pos_bound x 10). pose proof (Z.mod_pos_bound y 10).
  rewrite <- N2Z.inj_compare, !N2Z.inj_add, !Z2N.id by lia.
  apply Z.add_compare_mono_l.
Qed.

Lemma is_digit_digit x : is_digit (digit x) = true.
Proof.
  unfold is_digit. rewrite N_of_digit.
  pose proof (Z.mod_pos_bound x 10).
  apply andb_true_iff. split; apply N.leb_le; lia.
Qed.

(** Two zero-padded fields compare like the numbers they print. *)
Lemma pad2_compare a b s1 s2 :
  0 ≤ a ≤ 99 → 0 ≤ b ≤ 99 →
  String.compare (pad2 a +:+ s1) (pad2 b +:+ s2)
  = match a ?= b with Eq => String.compare s1 s2 | c => c end.
Proof.
  intros Ha Hb. unfold pad2. rewrite !append_cons. cbn [String.compare].
  rewrite !digit_compare.
  pose proof (Z.div_mod a 10 ltac:(lia)) as Da.
  pose proof (Z.div_mod b 10 ltac:(lia)) as Db.
  pose proof (Z.mod_pos_bound a 10 ltac:(lia)) as Ra.
  pose proof (Z.mod_pos_bound b 10 ltac:(lia)) as Rb.
  assert ((a / 10) mod 10 = a / 10) as -> by (apply Z.mod_small; lia).
  assert ((b / 10) mod 10 = b / 10) as -> by (apply Z.mod_small; lia).
  destruct (Z.compare_spec (a / 10) (b / 10)) as [E|E|E].
  - destruct (Z.compare_spec (a mod 10) (b mod 10)) as [E'|E'|E'];
      destruct (Z.compare_spec a b); try done; lia.
  - destruct (Z.compare_spec a b); try done; lia.
  - destruct (Z.compare_spec a b); try done; lia.
Qed.

(** A four-digit year prints as two zero-padded fields. *)
Lemma decimal_four_digits x :
  1000 ≤ x ≤ 9999 → decimal x = pad2 (x / 100) +:+ pad2 (x mod 100).
Proof.
  intros Hx. unfold decimal.
  assert (9 ≤ Z.log2 x) as Hl.
  { change 9 with (Z.log2 1000). apply Z.log2_le_mono. lia. }
  destruct (Z.to_nat (Z.log2 x)) as [|[|[|f]]] eqn:E; [lia..|].
  cbn [decimal_go].
  destruct (Z.ltb_spec x 10); [lia|].
  destruct (Z.ltb_spec (x / 10) 10); [Z.to_euclidean_division_equations; lia|].
  destruct (Z.ltb_spec (x / 10 / 10) 10); [Z.to_euclidean_division_equations; lia|].
  assert (decimal_go f (x / 10 / 10 / 10)
            (String (digit (x / 10 / 10)) (String (digit (x / 10)) (String (digit x) "")))
          = String (digit (x / 10 / 10 / 10))
              (String (digit (x / 10 / 10)) (String (digit (x / 10)) (String (digit x) ""))))
    as ->.
  { destruct f; cbn [decimal_go]; [done|].
    destruct (Z.ltb_spec (x / 10 / 10 / 10) 10);
      [done | Z.to_euclidean_division_equations; lia]. }
  unfold pad2. rewrite !append_cons. cbn [String.append].
  repeat (apply (f_equal2 String);
          [apply digit_congr; Z.to_euclidean_division_equations; lia|]).
  done.
Qed.
End timestamp_facts.

Section timestamp_order.
Implicit Types (t : struct_time).

Lemma valid_time_bounds t :
  valid_time t = true →
  1000 ≤ tm_year t ≤ 9999 ∧ 1 ≤ tm_mon t ≤ 12 ∧ 1 ≤ tm_mday t ≤ 31
  ∧ 0 ≤ tm_hour t ≤ 23 ∧ 0 ≤ tm_min t ≤ 59 ∧ 0 ≤ tm_sec t ≤ 61.
Proof.
  unfold valid_time. rewrite !andb_true_iff, !Z.leb_le. lia.
Qed.

Lemma hour12_bounds h : 1 ≤ hour12 h ≤ 12.
Proof.
  unfold hour12. pose proof (Z.mod_pos_bound h 12 ltac:(lia)).
  destruct (Z.eqb_spec (h mod 12) 0); lia.
Qed.

(** The timestamp as seven zero-padded two-digit fields. *)
Lemma strftime_timestamp_fields t :
  1000 ≤ tm_year t ≤ 9999 →
  strftime "%Y%m%d%I%M%S" t
  = pad2 (tm_year t / 100) +:+ pad2 (tm_year t mod 100) +:+ pad2 (tm_mon t)
      +:+ pad2 (tm_mday t) +:+ pad2 (hour12 (tm_hour t)) +:+ pad2 (tm_min t)
      +:+ pad2 (tm_sec t) +:+ "".
Proof.
  intros Hy. rewrite strftime_timestamp, (decimal_four_digits _ Hy).
  by rewrite append_assoc.
Qed.

Lemma lex_step (a b : Z) (c : comparison) (rest : bool) :
  (if c is Lt then true else false) = rest →
  (if (match a ?= b with Eq => c | o => o end) is Lt then true else false)
  = (a <? b) || ((a =? b) && rest).
Proof.
  intros <-.
  destruct (Z.compare_spec a b), (Z.ltb_spec a b), (Z.eqb_spec a b);
    try lia; done.
Qed.

Lemma year_step (y1 y2 : Z) (c : comparison) :
  match y1 / 100 ?= y2 / 100 with
  | Eq => match y1 mod 100 ?= y2 mod 100 with Eq => c | o => o end
  | o => o
  end
  = match y1 ?= y2 with Eq => c | o => o end.
Proof.
  pose proof (Z.div_mod y1 100 ltac:(lia)) as Dy1.
  pose proof (Z.div_mod y2 100 ltac:(lia)) as Dy2.
  pose proof (Z.mod_pos_bound y1 100 ltac:(lia)) as Ry1.
  pose proof (Z.mod_pos_bound y2 100 ltac:(lia)) as Ry2.
  destruct (Z.compare_spec (y1 / 100) (y2 / 100)).
  - destruct (Z.compare_spec (y1 mod 100) (y2 mod 100));
      destruct (Z.compare_spec y1 y2); try lia; done.
  - destruct (Z.compare_spec y1 y2); try lia; done.
  - destruct (Z.compare_spec y1 y2); try lia; done.
Qed.

Lemma timestamp_compare t1 t2 :
  valid_time t1 = true → valid_time t2 = true →
  String.ltb (strftime "%Y%m%d%I%M%S" t1) (strftime "%Y%m%d%I%M%S" t2)
  = lex_ltb (printed_fields t1) (printed_fields t2).
Proof.
  intros (Hy1 & Hm1 & Hd1 & Hh1 & HM1 & HS1)%valid_time_bounds
         (Hy2 & Hm2 & Hd2 & Hh2 & HM2 & HS2)%valid_time_bounds.
  pose proof (hour12_bounds (tm_hour t1)) as HI1.
  pose proof (hour12_bounds (tm_hour t2)) as HI2.
  rewrite (strftime_timestamp_fields t1 Hy1), (strftime_timestamp_fields t2 Hy2).
  unfold String.ltb, printed_fields.
  pose proof (Z.div_mod (tm_year t1) 100 ltac:(lia)) as Dy1.
  pose proof (Z.div_mod (tm_year t2) 100 ltac:(lia)) as Dy2.
  pose proof (Z.mod_pos_bound (tm_year t1) 100 ltac:(lia)) as Ry1.
  pose proof (Z.mod_pos_bound (tm_year t2) 100 ltac:(lia)) as Ry2.
  rewrite !pad2_compare by lia. rewrite year_step.
  cbn [lex_ltb]. do 6 apply lex_step. done.
Qed.
End timestamp_order.

Section timestamp_shape.
Implicit Types (t : struct_time) (s u p : string).

Lemma all_digits_app s u : all_digits (s +:+ u) = all_digits s && all_digits u.
Proof.
  induction s as [|a s IH]; [done|].
  rewrite append_cons. cbn [all_digits]. by rewrite IH, andb_assoc.
Qed.

Lemma all_digits_pad2 x : all_digits (pad2 x) = true.
Proof. unfold pad2. cbn [all_digits]. by rewrite !is_digit_digit. Qed.

Lemma all_digits_decimal_go fuel x acc :
  all_digits (decimal_go fuel x acc) = all_digits acc.
Proof.
  revert x acc. induction fuel as [|fuel IH]; intros x acc; cbn [decimal_go].
  - cbn [all_digits]. by rewrite is_digit_digit.
  - destruct (x <? 10).
    + cbn [all_digits]. by rewrite is_digit_digit.
    + rewrite IH. cbn [all_digits]. by rewrite is_digit_digit.
Qed.

Lemma all_digits_timestamp t : all_digits (strftime "%Y%m%d%I%M%S" t) = true.
Proof.
  rewrite strftime_timestamp, !all_digits_app, !all_digits_pad2.
  unfold decimal. by rewrite all_digits_decimal_go.
Qed.

Lemma is_digit_not_sep a : is_digit a = true → Ascii.eqb a sep = false.
Proof.
  intros Hd. destruct (Ascii.eqb_spec a sep) as [->|]; [|done].
  vm_compute in Hd. discriminate.
Qed.

Lemma all_digits_count_sep s : all_digits s = true → count_sep s = 0%nat.
Proof.
  induction s as [|a s IH]; [done|]. cbn [all_digits count_sep].
  intros [Ha Hs]%andb_true_iff. by rewrite (is_digit_not_sep a Ha), IH.
Qed.

Lemma length_app s u : String.length (s +:+ u) = (String.length s + String.length u)%nat.
Proof.
  induction s as [|a s IH]; [done|].
  rewrite append_cons. cbn [String.length]. by rewrite IH.
Qed.

Lemma length_timestamp t :
  1000 ≤ tm_year t ≤ 9999 → String.length (strftime "%Y%m%d%I%M%S" t) = 14%nat.
Proof. intros Hy. by rewrite (strftime_timestamp_fields t Hy). Qed.

Lemma compare_refl s : String.compare s s = Eq.
Proof.
  induction s as [|a s IH]; [done|]. cbn [String.compare].
  unfold Ascii.compare. by rewrite N.compare_refl.
Qed.

Lemma compare_app_prefix p s u : String.compare (p +:+ s) (p +:+ u) = String.compare s u.
Proof.
  induction p as [|a p IH]; [done|].
  rewrite !append_cons. cbn [String.compare].
  unfold Ascii.compare. by rewrite N.compare_refl.
Qed.

(** Strings of one length followed by one suffix compare like the strings. *)
Lemma compare_app_suffix s1 s2 u :
  String.length s1 = String.length s2 →
  String.compare (s1 +:+ u) (s2 +:+ u) = String.compare s1 s2.
Proof.
  revert s2. induction s1 as [|a s1 IH]; intros [|b s2] Hl; try done.
  - apply compare_refl.
  - rewrite !append_cons. cbn [String.compare].
    destruct (Ascii.compare a b); [|done..]. apply IH. by injection Hl.
Qed.

(** The prefix [os.path.join] puts before a relative name depends on the
    directory only. *)
Lemma os_path_join_relative a b :
  Str.startswith "/" b = false →
  os_path_join a b
  = (if (String.eqb a "" || Str.endswith sep a)%bool then a else a +:+ "/") +:+ b.
Proof.
  intros Hb. unfold os_path_join. rewrite Hb.
  destruct (String.eqb a "" || Str.endswith sep a)%bool; [done|].
  by rewrite append_assoc.
Qed.

Lemma snapshot_name_relative name ts tag :
  Str.startswith "/" (snapshot_name name ts tag) = false.
Proof. reflexivity. Qed.

Lemma snapshot_pattern_relative name tag :
  Str.startswith "/" (snapshot_pattern name tag) = false.
Proof. reflexivity. Qed.

(** Two generation paths of one (dest, name, tag) compare like their
    timestamps when these have one length. *)
Lemma snapshot_path_compare dest name tag ts1 ts2 :
  String.length ts1 = String.length ts2 →
  String.compare (os_path_join dest (snapshot_name name ts1 tag))
                 (os_path_join dest (snapshot_name name ts2 tag))
  = String.compare ts1 ts2.
Proof.
  intros Hl.
  rewrite !os_path_join_relative by apply snapshot_name_relative.
  rewrite compare_app_prefix. unfold snapshot_name.
  rewrite !compare_app_prefix.
  by apply compare_app_suffix.
Qed.
End timestamp_shape.

Lemma lex_ltb_app (l1 l2 r1 r2 : list Z) :
  lex_ltb l1 l2 = true → lex_ltb (l1 ++ r1) (l2 ++ r2) = true.
Proof.
  revert l2. induction l1 as [|x l1 IH]; intros [|y l2]; try done.
  cbn [lex_ltb app].
  intros [H|[H1 H2]%andb_true_iff]%orb_true_iff; apply orb_true_iff.
  - by left.
  - right. apply andb_true_iff. split; [done|]. by apply IH.
Qed.

Lemma hour12_plus_12 h : hour12 (h + 12) = hour12 h.
Proof.
  unfold hour12.
  assert ((h + 12) mod 12 = h mod 12) as ->; [|done].
  replace (h + 12) with (h + 1 * 12) by lia. apply Z_mod_plus_full.
Qed.

(** X1. For two valid local times, the paths [sync] gives to the generations
    of one (dest, name, tag) compare, as strings, like the printed fields of
    the times compare lexicographically: year, month, day, hour on the
    12-hour clock, minute, second. *)
Theorem generation_paths_sort_by_printed_fields (dest name tag : string)
    (t1 t2 : struct_time) :
  valid_time t1 = true → valid_time t2 = true →
  String.ltb (os_path_join dest (snapshot_name name (strftime "%Y%m%d%I%M%S" t1) tag))
             (os_path_join dest (snapshot_name name (strftime "%Y%m%d%I%M%S" t2) tag))
  = lex_ltb (printed_fields t1) (printed_fields t2).
Proof.
  intros Hv1 Hv2. rewrite <- (timestamp_compare t1 t2 Hv1 Hv2).
  unfold String.ltb. rewrite snapshot_path_compare; [done|].
  apply valid_time_bounds in Hv1 as [Hy1 _]. apply valid_time_bounds in Hv2 as [Hy2 _].
  by rewrite !length_timestamp.
Qed.

Lemma generation_paths_sort_by_printed_fields_witness :
  valid_time (at_hour 9) = true ∧ valid_time (at_hour 10) = true
  ∧ String.ltb gen09 gen10 = true.
Proof.
  split; [reflexivity|]. split; [reflexivity|].
  etransitivity;
    [exact (generation_paths_sort_by_printed_fields "/snap" "home" "daily"
              (at_hour 9) (at_hour 10) eq_refl eq_refl)|].
  reflexivity.
Defined.

(** X2. Generations of one (dest, name, tag) made on different calendar
    days sort chronologically: if the day of [t1] is before the day of [t2],
    then [t1] is the earlier time and its generation path is the smaller
    string. *)
Theorem generations_of_different_days_sort_chronologically (dest name tag : string)
    (t1 t2 : struct_time) :
  valid_time t1 = true → valid_time t2 = true →
  lex_ltb (date_fields t1) (date_fields t2) = true →
  earlier t1 t2 = true
  ∧ String.ltb (os_path_join dest (snapshot_name name (strftime "%Y%m%d%I%M%S" t1) tag))
               (os_path_join dest (snapshot_name name (strftime "%Y%m%d%I%M%S" t2) tag))
    = true.
Proof.
  intros Hv1 Hv2 Hd. split.
  - exact (lex_ltb_app (date_fields t1) (date_fields t2)
             [tm_hour t1; tm_min t1; tm_sec t1] [tm_hour t2; tm_min t2; tm_sec t2] Hd).
  - unfold String.ltb. rewrite snapshot_path_compare.
    + fold (String.ltb (strftime "%Y%m%d%I%M%S" t1) (strftime "%Y%m%d%I%M%S" t2)).
      rewrite (timestamp_compare t1 t2 Hv1 Hv2).
      exact (lex_ltb_app (date_fields t1) (date_fields t2)
               [hour12 (tm_hour t1); tm_min t1; tm_sec t1]
               [hour12 (tm_hour t2); tm_min t2; tm_sec t2] Hd).
    + apply valid_time_bounds in Hv1 as [Hy1 _].
      apply valid_time_bounds in Hv2 as [Hy2 _].
      by rewrite !length_timestamp.
Qed.

Lemma generations_of_different_days_sort_chronologically_witness :
  earlier (on_day 1 23) (on_day 2 1) = true
  ∧ String.ltb
      (os_path_join "/snap"
         (snapshot_name "home" (strftime "%Y%m%d%I%M%S" (on_day 1 23)) "daily"))
      (os_path_join "/snap"
         (snapshot_name "home" (strftime "%Y%m%d%I%M%S" (on_day 2 1)) "daily"))
    = true.
Proof.
  exact (generations_of_different_days_sort_chronologically "/snap" "home" "daily"
           (on_day 1 23) (on_day 2 1) eq_refl eq_refl eq_refl).
Defined.

(** X3. The hour is printed on the 12-hour clock without an AM/PM mark, so a
    local time of the morning and the time twelve hours later on the same
    day, which is a valid local time and later, get the same timestamp, and
    with it the same generation path. *)
Theorem twelve_hours_later_same_generation_path (dest name tag : string)
    (t : struct_time) :
  valid_time t = true →
  tm_hour t < 12 →
  let later := with_hour (tm_hour t + 12) t in
  valid_time later = true
  ∧ earlier t later = true
  ∧ strftime "%Y%m%d%I%M%S" later = strftime "%Y%m%d%I%M%S" t
  ∧ os_path_join dest (snapshot_name name (strftime "%Y%m%d%I%M%S" later) tag)
    = os_path_join dest (snapshot_name name (strftime "%Y%m%d%I%M%S" t) tag).
Proof.
  intros Hv Hh later.
  pose proof (valid_time_bounds t Hv) as (Hy & Hm & Hd & Hhr & Hmi & Hs).
  assert (strftime "%Y%m%d%I%M%S" later = strftime "%Y%m%d%I%M%S" t) as H.
  { subst later. rewrite !strftime_timestamp.
    cbn [with_hour tm_year tm_mon tm_mday tm_hour tm_min tm_sec].
    by rewrite hour12_plus_12. }
  split.
  { subst later. unfold valid_time.
    cbn [with_hour tm_year tm_mon tm_mday tm_hour tm_min tm_sec].
    rewrite !andb_true_iff, !Z.leb_le. lia. }
  split.
  { subst later. unfold earlier, tm_fields.
    cbn [with_hour tm_year tm_mon tm_mday tm_hour tm_min tm_sec lex_ltb].
    rewrite !Z.eqb_refl, !Z.ltb_irrefl. cbn [orb andb].
    apply orb_true_iff. left. apply Z.ltb_lt. lia. }
  split; [exact H | by rewrite H].
Qed.

Lemma twelve_hours_later_same_generation_path_witness :
  valid_time (at_hour 1) = true
  ∧ at_hour 13 = with_hour (tm_hour (at_hour 1) + 12) (at_hour 1)
  ∧ earlier (at_hour 1) (at_hour 13) = true
  ∧ os_path_join "/snap" (snapshot_name "home" (strftime "%Y%m%d%I%M%S" (at_hour 13)) "daily")
    = os_path_join "/snap" (snapshot_name "home" (strftime "%Y%m%d%I%M%S" (at_hour 1)) "daily").
Proof.
  split; [reflexivity|]. split; [reflexivity|].
  destruct (twelve_hours_later_same_generation_path "/snap" "home" "daily" (at_hour 1))
    as (_ & He & _ & Hp).
  - reflexivity.
  - cbn. lia.
  - split; [exact He | exact Hp].
Defined.

(** X4. The timestamp of a generation name consists of decimal digits only,
    and for a four-digit year it is fourteen characters long. *)
Theorem timestamp_is_fourteen_digits (t : struct_time) :
  1000 ≤ tm_year t ≤ 9999 →
  String.length (strftime "%Y%m%d%I%M%S" t) = 14%nat
  ∧ all_digits (strftime "%Y%m%d%I%M%S" t) = true.
Proof.
  intros Hy. split; [by apply length_timestamp | apply all_digits_timestamp].
Qed.

Lemma timestamp_is_fourteen_digits_witness :
  String.length (strftime "%Y%m%d%I%M%S" (at_hour 13)) = 14%nat
  ∧ all_digits (strftime "%Y%m%d%I%M%S" (at_hour 13)) = true.
Proof.
  apply (timestamp_is_fourteen_digits (at_hour 13)). cbn. lia.
Defined.

(** ** Matching generation names *)

Section pattern_facts.
Implicit Types (s t r p pat mid pre post : string) (ts : list token) (a c : ascii).

Lemma append_nil_r s : s +:+ "" = s.
Proof. induction s as [|a s IH]; [done|]. by rewrite append_cons, IH. Qed.

Lemma endswith_app c s t : t ≠ "" → Str.endswith c (s +:+ t) = Str.endswith c t.
Proof.
  intros Ht. induction s as [|a s IH]; [done|].
  rewrite append_cons. cbn [Str.endswith].
  destruct (s +:+ t) eqn:E; [|exact IH].
  destruct s; [|discriminate E]. by destruct t.
Qed.

Lemma plain_app s t : plain (s +:+ t) = plain s && plain t.
Proof.
  induction s as [|a s IH]; [done|].
  rewrite append_cons. cbn [plain]. by rewrite IH, andb_assoc.
Qed.

Lemma word_plain s : word s = true → plain s = true.
Proof.
  induction s as [|a s IH]; [done|]. cbn [word plain].
  intros [[_ ->]%andb_true_iff Hs]%andb_true_iff. by rewrite IH.
Qed.

Lemma word_count_sep s : word s = true → count_sep s = 0%nat.
Proof.
  induction s as [|a s IH]; [done|]. cbn [word count_sep].
  intros [[Ha _]%andb_true_iff Hs]%andb_true_iff.
  destruct (Ascii.eqb a sep); [done | by apply IH].
Qed.

Lemma count_sep_endswith s : count_sep s = 0%nat → Str.endswith sep s = false.
Proof.
  induction s as [|a s IH]; [done|]. cbn [count_sep Str.endswith].
  destruct (Ascii.eqb a sep); [done|]. intros Hs. destruct s; [done|by apply IH].
Qed.

Lemma count_sep_startswith s : count_sep s = 0%nat → Str.startswith "/" s = false.
Proof.
  destruct s as [|a s]; [done|]. cbn [count_sep Str.startswith].
  destruct (Ascii.eqb_spec a sep) as [->|Ha]; [done|]. intros _.
  apply andb_false_iff. left. apply Ascii.eqb_neq. intros <-. by apply Ha.
Qed.

Lemma squeeze_free s : count_sep s = 0%nat → squeeze s = s.
Proof.
  induction s as [|a s IH]; [done|]. cbn [count_sep squeeze].
  destruct (Ascii.eqb a sep); [done|]. intros Hs. cbn [andb]. by rewrite IH.
Qed.

Lemma startswith_app_l s t :
  s ≠ "" → Str.startswith "/" (s +:+ t) = Str.startswith "/" s.
Proof. by destruct s. Qed.

(** Squeezing goes through a junction at which no two separators meet. *)
Lemma squeeze_app s t :
  Str.endswith sep s = false ∨ Str.startswith "/" t = false →
  squeeze (s +:+ t) = squeeze s +:+ squeeze t.
Proof.
  induction s as [|a s IH]; [done|]. intros Hj.
  rewrite append_cons.
  destruct s as [|b s].
  - change ("" +:+ t) with t.
    change (squeeze (String a "")) with (if Ascii.eqb a sep && false then "" else String a "").
    rewrite andb_false_r. rewrite append_cons. change ("" +:+ squeeze t) with (squeeze t).
    cbn [squeeze].
    destruct Hj as [Hj|Hj].
    + cbn [Str.endswith] in Hj. by rewrite Hj.
    + by rewrite Hj, andb_false_r.
  - cbn [squeeze]. rewrite startswith_app_l by done. rewrite IH by done.
    by destruct (_ && _).
Qed.

Lemma tokenize_plain_app s r :
  plain s = true → tokenize 0 (s +:+ r) = lits s ++ tokenize 0 r.
Proof.
  induction s as [|a s IH]; [done|]. cbn [plain].
  intros [Ha Hs]%andb_true_iff. rewrite append_cons. cbn [tokenize lits app].
  unfold is_magic in Ha. apply negb_true_iff in Ha.
  apply orb_false_iff in Ha as [[Hstar Hq]%orb_false_iff Hb].
  rewrite Hstar, Hq, Hb. by rewrite IH.
Qed.

Lemma tokenize_plain s : plain s = true → tokenize 0 s = lits s.
Proof.
  intros Hs. rewrite <- (append_nil_r s) at 1.
  rewrite tokenize_plain_app by done. apply app_nil_r.
Qed.

(** A path matches its own characters, whatever follows. *)
Lemma match_lits_app s ts start r :
  match_tokens (lits s ++ ts) start (s +:+ r)
  = match_tokens ts (starts_after s start) r.
Proof.
  revert start. induction s as [|a s IH]; intros start; [done|].
  rewrite append_cons. cbn [lits app match_tokens].
  rewrite Ascii.eqb_refl, IH. cbn [andb]. by destruct s.
Qed.

Lemma match_lits_self s start : match_tokens (lits s) start s = true.
Proof.
  pose proof (match_lits_app s [] start "") as H.
  by rewrite app_nil_r, append_nil_r in H.
Qed.

Lemma match_star_unfold ts a s :
  match_tokens (Star :: ts) false (String a s)
  = match_tokens ts false (String a s)
    || (negb (Ascii.eqb a sep) && match_tokens (Star :: ts) false s).
Proof. reflexivity. Qed.

(** [*] stands for any run of characters other than the separator, inside
    a path component. *)
Lemma match_star_skip mid ts r :
  count_sep mid = 0%nat → match_tokens ts false r = true →
  match_tokens (Star :: ts) false (mid +:+ r) = true.
Proof.
  intros Hmid Hm. induction mid as [|a mid IH].
  - change ("" +:+ r) with r. destruct r as [|b r].
    + cbn. by rewrite Hm.
    + by rewrite match_star_unfold, Hm.
  - rewrite append_cons, match_star_unfold. apply orb_true_iff. right.
    cbn [count_sep] in Hmid. destruct (Ascii.eqb a sep); [done|].
    cbn [negb andb]. by apply IH.
Qed.

(** A pattern with one [*] inside a path component, and nothing else that
    has a special meaning, matches every path that puts a separator-free
    text in its place. *)
Lemma fnmatch_star pre post mid :
  plain pre = true → plain post = true →
  starts_after pre true = false →
  count_sep mid = 0%nat →
  fnmatch (pre +:+ "*" +:+ post) (pre +:+ mid +:+ post) = true.
Proof.
  intros Hpre Hpost Hstart Hmid. unfold fnmatch.
  rewrite tokenize_plain_app by done.
  change ("*" +:+ post) with (String "*" post). cbn [tokenize].
  change (Ascii.eqb "*" "*") with true. cbv iota.
  rewrite tokenize_plain by done.
  rewrite match_lits_app, Hstart.
  apply match_star_skip; [done|]. apply match_lits_self.
Qed.
End pattern_facts.

Section generation_names.
Implicit Types (dest name tag mid r : string) (f : FS).

(** What [os.path.join] puts before a relative name. *)
Lemma join_prefix_squeezed dest :
  String.eqb (squeeze dest) dest = true →
  squeeze (if (String.eqb dest "" || Str.endswith sep dest)%bool
           then dest else dest +:+ "/")
  = (if (String.eqb dest "" || Str.endswith sep dest)%bool then dest else dest +:+ "/").
Proof.
  intros Hd%String.eqb_eq.
  destruct (String.eqb dest "" || Str.endswith sep dest)%bool eqn:E; [done|].
  apply orb_false_iff in E as [_ E].
  rewrite squeeze_app by (by left). by rewrite Hd.
Qed.

(** A separator-free name joined to a destination without repeated
    separators is spelled as the file system stores it. *)
Lemma canon_join dest r :
  String.eqb (squeeze dest) dest = true →
  count_sep r = 0%nat → r ≠ "" →
  canon (os_path_join dest r) = os_path_join dest r
  ∧ Str.endswith sep (os_path_join dest r) = false.
Proof.
  intros Hd Hr Hne.
  rewrite os_path_join_relative by (by apply count_sep_startswith).
  set (d := if (_ || _)%bool then dest else dest +:+ "/").
  assert (Str.endswith sep (d +:+ r) = false) as He.
  { rewrite endswith_app by done. by apply count_sep_endswith. }
  split; [|exact He]. unfold canon.
  rewrite squeeze_app by (right; by apply count_sep_startswith).
  subst d. rewrite join_prefix_squeezed by done.
  rewrite squeeze_free by done.
  rewrite rstrip_fixed by done. by destruct (_ +:+ r).
Qed.

Lemma snapshot_pattern_split dest name tag :
  os_path_join dest (snapshot_pattern name tag)
  = ((if (String.eqb dest "" || Str.endswith sep dest)%bool then dest else dest +:+ "/")
       +:+ "snapback_" +:+ name +:+ "_") +:+ "*" +:+ "_" +:+ tag.
Proof.
  rewrite os_path_join_relative by apply snapshot_pattern_relative.
  unfold snapshot_pattern. by rewrite !append_assoc.
Qed.

Lemma snapshot_name_split dest name tag mid :
  os_path_join dest (snapshot_name name mid tag)
  = ((if (String.eqb dest "" || Str.endswith sep dest)%bool then dest else dest +:+ "/")
       +:+ "snapback_" +:+ name +:+ "_") +:+ mid +:+ "_" +:+ tag.
Proof.
  rewrite os_path_join_relative by apply snapshot_name_relative.
  unfold snapshot_name. by rewrite !append_assoc.
Qed.

(** Every entry [snapback_<name>_<mid>_<tag>] of [dest] with a
    separator-free [mid] is a match of the pattern that [sync] and [rotate]
    search for, when [dest], [name] and [tag] are plainly spelled. *)
Lemma glob_match_snapshot dest name tag mid f :
  tidy dest = true → word name = true → word tag = true →
  count_sep mid = 0%nat →
  glob_match (os_path_join dest (snapshot_pattern name tag)) f
    (os_path_join dest (snapshot_name name mid tag)) = true.
Proof.
  intros [Hp Hs]%andb_true_iff Hn Ht Hmid. unfold glob_match.
  assert (count_sep (snapshot_pattern name tag) = 0%nat) as Hc.
  { unfold snapshot_pattern. rewrite !count_sep_app.
    by rewrite (word_count_sep name), (word_count_sep tag). }
  destruct (canon_join dest (snapshot_pattern name tag) Hs Hc) as [-> ->]; [done|].
  cbn [negb orb]. rewrite andb_true_r.
  rewrite snapshot_pattern_split, snapshot_name_split.
  apply fnmatch_star.
  - rewrite !plain_app, (word_plain name) by done.
    destruct (_ || _)%bool; [by rewrite Hp|].
    by rewrite plain_app, Hp.
  - by rewrite plain_app, (word_plain tag).
  - rewrite <- !append_assoc.
    set (x := (_ +:+ "snapback_") +:+ name).
    assert (Str.endswith sep (x +:+ "_") = false) as He by (by rewrite endswith_app).
    destruct (x +:+ "_") as [|a y] eqn:E; [by destruct x|]. exact He.
  - done.
Qed.

(** Such an entry is spelled as the file system stores it. *)
Lemma canon_snapshot dest name tag mid :
  tidy dest = true → word name = true → word tag = true →
  count_sep mid = 0%nat →
  canon (os_path_join dest (snapshot_name name mid tag))
  = os_path_join dest (snapshot_name name mid tag)
  ∧ Str.endswith sep (os_path_join dest (snapshot_name name mid tag)) = false.
Proof.
  intros [_ Hs]%andb_true_iff Hn Ht Hmid. apply canon_join; [done| |done].
  unfold snapshot_name. rewrite !count_sep_app.
  by rewrite (word_count_sep name), (word_count_sep tag), Hmid.
Qed.

Lemma os_path_exists_lookup p f :
  canon p = p → os_path_exists p f = true → p ≠ "/" → is_Some (f !! p).
Proof.
  intros Hc. unfold os_path_exists. rewrite Hc.
  destruct (String.eqb_spec p "/"); [done|].
  destruct (f !! p); [by eexists | done].
Qed.

Lemma enumerated dest name tag mid f :
  tidy dest = true → word name = true → word tag = true →
  count_sep mid = 0%nat →
  os_path_exists (os_path_join dest (snapshot_name name mid tag)) f = true →
  os_path_join dest (snapshot_name name mid tag) ∈ generations dest name tag f.
Proof.
  intros Hd Hn Ht Hmid Hex.
  destruct (canon_snapshot dest name tag mid Hd Hn Ht Hmid) as [Hc He].
  apply elem_of_generations. split; [|by apply glob_match_snapshot].
  apply os_path_exists_lookup; [done..|]. intros Hr. by rewrite Hr in He.
Qed.
End generation_names.

(** X5. With a destination, a name and a tag that are plainly spelled (no
    character with a special meaning in a shell pattern, no repeated
    separator in the destination, no separator in the name and the tag),
    the path [sync] gives to the generation it builds matches the pattern
    with which [sync] and [rotate] enumerate the generations of the same
    (dest, name, tag): once the path exists, it is a member of the
    enumeration. *)
Theorem new_snapshot_is_enumerated (env : Env) (dest name tag : string) (w : World)
    (f : FS) :
  tidy dest = true → word name = true → word tag = true →
  fnmatch (canon (os_path_join dest (snapshot_pattern name tag)))
          (new_snapshot env dest name tag w) = true
  ∧ (os_path_exists (new_snapshot env dest name tag w) f = true →
     new_snapshot env dest name tag w ∈ generations dest name tag f).
Proof.
  intros Hd Hn Ht.
  assert (count_sep (strftime "%Y%m%d%I%M%S" (time_localtime env (clock w))) = 0%nat)
    as Hts by apply all_digits_count_sep, all_digits_timestamp.
  split.
  - eapply glob_match_fnmatch. by apply (glob_match_snapshot _ _ _ _ f).
  - intros Hex. by apply enumerated.
Qed.

Lemma new_snapshot_is_enumerated_witness :
  tidy "/snap" = true ∧ word "home" = true ∧ word "daily" = true
  ∧ gen11 ∈ generations "/snap" "home" "daily"
             (fs (sync_of_run env_all_well (sample_args 0) sample_world).2).
Proof.
  repeat (split; [reflexivity|]).
  destruct (new_snapshot_is_enumerated env_all_well "/snap" "home" "daily" sample_world
              (fs (sync_of_run env_all_well (sample_args 0) sample_world).2))
    as [_ H]; [reflexivity..|].
  apply H. vm_compute. reflexivity.
Defined.

(** X6. The enumeration of (name, tag) is not confined to that lineage:
    with a plainly spelled destination, name and tag, the generations of
    every tag that ends in [_tag], and of every name that starts with
    [name_], match its pattern as well, whenever they exist. *)
Theorem enumeration_captures_other_lineages (dest name tag other ts : string)
    (f : FS) :
  tidy dest = true → word name = true → word tag = true →
  count_sep ts = 0%nat → count_sep other = 0%nat →
  (os_path_exists
     (os_path_join dest (snapshot_name name ts (other +:+ "_" +:+ tag))) f = true →
   os_path_join dest (snapshot_name name ts (other +:+ "_" +:+ tag))
     ∈ generations dest name tag f)
  ∧ (os_path_exists
       (os_path_join dest (snapshot_name (name +:+ "_" +:+ other) ts tag)) f = true →
     os_path_join dest (snapshot_name (name +:+ "_" +:+ other) ts tag)
       ∈ generations dest name tag f).
Proof.
  intros Hd Hn Ht Hts Hother. split.
  - assert (snapshot_name name ts (other +:+ "_" +:+ tag)
            = snapshot_name name (ts +:+ "_" +:+ other) tag) as ->.
    { unfold snapshot_name. by rewrite !append_assoc. }
    intros Hex. apply enumerated; [done..| |done].
    by rewrite !count_sep_app, Hts, Hother.
  - assert (snapshot_name (name +:+ "_" +:+ other) ts tag
            = snapshot_name name (other +:+ "_" +:+ ts) tag) as ->.
    { unfold snapshot_name. by rewrite !append_assoc. }
    intros Hex. apply enumerated; [done..| |done].
    by rewrite !count_sep_app, Hts, Hother.
Qed.

Lemma enumeration_captures_other_lineages_witness :
  "/snap/snapback_home_20240101090000_pre_daily" ∈ generations "/snap" "home" "daily" mixed_fs
  ∧ "/snap/snapback_home_db_20240101100000_daily" ∈ generations "/snap" "home" "daily" mixed_fs.
Proof.
  split.
  - destruct (enumeration_captures_other_lineages "/snap" "home" "daily" "pre"
                "20240101090000" mixed_fs eq_refl eq_refl eq_refl eq_refl eq_refl)
      as [H _].
    apply H. vm_compute. reflexivity.
  - destruct (enumeration_captures_other_lineages "/snap" "home" "daily" "db"
                "20240101100000" mixed_fs eq_refl eq_refl eq_refl eq_refl eq_refl)
      as [_ H].
    apply H. vm_compute. reflexivity.
Defined.

(** ** [touch] *)

(** X11. [touch] creates only what is missing, and only where it can.  When
    it returns, the path exists; an entry that was there is what it was, a
    missing one is now a file, and no other entry has changed; touching the
    path again returns and changes nothing.  When it raises, the file system
    is as it was.  It raises for a path that is no directory and ends in a
    separator, and for a path whose parent is no directory. *)
Theorem touch_creates_only_what_is_missing (env : Env) (path : string) (w : World) :
  match touch env path w with
  | (Returned _, w') =>
      os_path_exists path (fs w') = true
      ∧ (∀ q, q ≠ canon path → fs w' !! q = fs w !! q)
      ∧ (∀ x, fs w !! canon path = Some x → fs w' !! canon path = Some x)
      ∧ (fs w !! canon path = None → canon path ≠ "/" →
         fs w' !! canon path = Some File)
      ∧ trace w' = trace w ++ [Touched path]
      ∧ touch env path w' = (Returned tt, emit (Touched path) w')
  | (Raised e, w') =>
      e = OSError path ∧ fs w' = fs w ∧ trace w' = trace w ++ [TouchFailed path]
  end
  ∧ (os_path_isdir path (fs w) = false → Str.endswith sep path = true →
     (touch env path w).1 = Raised (OSError path))
  ∧ (os_path_isdir path (fs w) = false → parent_is_dir path (fs w) = false →
     (touch env path w).1 = Raised (OSError path)).
Proof.
  split.
  - destruct (touch env path w) as [[[]|e] w'] eqn:Ht.
    2:{ apply touch_raised in Ht as [-> ->]. done. }
    destruct (touch_returned env _ _ _ Ht) as (Htr & _ & Hex & Hout & Hold & Hnew).
    split; [done|]. split; [done|]. split; [done|]. split; [done|].
    split; [done|].
    revert Ht. unfold touch.
    destruct (os_path_isdir path (fs w)) eqn:Ed.
    + destruct (utime_raises env path) eqn:Eu; [done|]. intros [= <-].
      cbn [emit fs]. by rewrite Ed.
    + destruct (Str.endswith sep path) eqn:Es; [done|].
      destruct (String.eqb path "") eqn:Ee; [done|].
      destruct (parent_is_dir path (fs w)) eqn:Ep; [|done].
      destruct (open_raises env path) eqn:Eo; [done|].
      cbn [orb negb]. intros [= <-]. cbn [emit set_fs fs].
      unfold os_path_isdir in Ed.
      apply orb_false_iff in Ed as [Er Ed%bool_decide_eq_false].
      assert (os_path_isdir path (<[canon path:=File]> (fs w)) = false) as ->.
      { unfold os_path_isdir. rewrite Er, lookup_insert_eq. done. }
      assert (parent_is_dir path (<[canon path:=File]> (fs w)) = true) as ->.
      { revert Ep. unfold parent_is_dir. cbv zeta.
        rewrite !orb_true_iff, !bool_decide_eq_true.
        intros [[H|H]|H]; [by left; left | by left; right | right].
        rewrite lookup_insert_ne; [done|]. intros Heq. by rewrite Heq in Ed. }
      cbn [orb negb]. by rewrite insert_insert_eq.
  - split.
    + intros Hd Hs. unfold touch. by rewrite Hd, Hs.
    + intros Hd Hp. unfold touch. rewrite Hd, Hp. cbn [negb].
      by rewrite !orb_true_r.
Qed.

Lemma touch_creates_only_what_is_missing_witness :
  (touch env_all_well "/snap/nodir/" empty_world).1 = Raised (OSError "/snap/nodir/")
  ∧ (touch env_all_well "/snap/nope/f" empty_world).1 = Raised (OSError "/snap/nope/f")
  ∧ fs (touch env_all_well "/snap/f" empty_world).2 !! "/snap/f" = Some File
  ∧ fs (touch env_all_well "/snap/f" empty_world).2 !! "/snap" = Some Dir.
Proof.
  split; [|split].
  - destruct (touch_creates_only_what_is_missing env_all_well "/snap/nodir/" empty_world)
      as (_ & H & _).
    apply H; reflexivity.
  - destruct (touch_creates_only_what_is_missing env_all_well "/snap/nope/f" empty_world)
      as (_ & _ & H).
    apply H; reflexivity.
  - pose proof (touch_creates_only_what_is_missing env_all_well "/snap/f" empty_world)
      as [H _].
    change (touch env_all_well "/snap/f" empty_world)
      with (@Returned unit tt, (touch env_all_well "/snap/f" empty_world).2) in H.
    cbv iota in H. destruct H as (_ & Hout & _ & Hnew & _).
    split.
    + apply Hnew; [reflexivity | discriminate].
    + rewrite Hout; [reflexivity | discriminate].
Defined.

(** ** A destination that cannot be made, a name with a bracket *)

(** X19. A run that gets past the guards with a destination that is missing
    and cannot be made ends there: [os.makedirs] raises, nothing catches
    the exception, the exit status is 1, no command is launched and nothing
    is removed. *)
Theorem unmakeable_destination_ends_the_run (env : Env) (args : Args) (w : World) :
  guards_pass env args w →
  ¬ dest_ready env args w →
  os_path_exists (args_dest args) (fs w) = false
  ∧ (∃ e, (main env args w).1 = Uncaught e)
  ∧ exit_status (main env args w).1 = 1
  ∧ trace (main env args w).2
    = trace w ++ [Locked (lock_file_of (args_name args));
                  MakedirsFailed (args_dest args)]
  ∧ fs w ⊆ fs (main env args w).2.
Proof.
  intros Hg Hd. destruct (main_not_ready env args w Hg Hd) as [e ->].
  cbn [fst snd exit_status]. unfold dest_ready, at_sync, prepare_dest in *.
  destruct (before_mirror_cases env (args_dest args)
              (emit (Locked (lock_file_of (args_name args))) w))
    as [(w0 & Hb & _)|(e' & w0 & Hb & _ & Hsub & Hex & Ht)];
    rewrite Hb in *; [done|].
  split; [exact Hex|]. split; [by exists e|]. split; [done|].
  split; [|exact Hsub]. cbn [snd]. rewrite Ht. cbn [emit trace].
  by rewrite <- app_assoc.
Qed.

Lemma unmakeable_destination_ends_the_run_witness :
  guards_pass env_all_well below_args file_world
  ∧ exit_status (main env_all_well below_args file_world).1 = 1
  ∧ trace (main env_all_well below_args file_world).2
    = [Locked "/tmp/snapback_home.lock"; MakedirsFailed "/snap/x"].
Proof.
  assert (guards_pass env_all_well below_args file_world) as Hg.
  { repeat split. intros He. vm_compute in He. discriminate He. }
  destruct (unmakeable_destination_ends_the_run env_all_well below_args file_world Hg)
    as (_ & _ & Hs & Ht & _).
  { intros Hr. vm_compute in Hr. discriminate Hr. }
  split; [exact Hg|]. split; [exact Hs | exact Ht].
Defined.

(** X20. The name and the tag go into the search pattern as they are, so a
    bracket in them is read as a bracket expression.  With the name
    ["a[b]"] the enumeration holds the generation of the name ["ab"] and not
    the one of the name ["a[b]"], although both exist, and a run of [sync]
    for ["a[b]"] clones the generation of ["ab"]. *)
Theorem bracket_in_name_selects_another_lineage :
  fs bracket_world !! os_path_join "/snap" (snapshot_name "a[b]" "20240101080000" "daily")
    = Some Dir
  ∧ generations "/snap" "a[b]" "daily" (fs bracket_world)
    = [os_path_join "/snap" (snapshot_name "ab" "20240101080000" "daily")]
  ∧ new_snapshot env_all_well "/snap" "a[b]" "daily" bracket_world
    = "/snap/snapback_a[b]_20240101110000_daily"
  ∧ trace (sync env_all_well "/home/" "/snap" "a[b]" "daily" [] bracket_world).2
    = [Launch (cp_cmd_line "/snap/snapback_ab_20240101080000_daily"
                 "/snap/snapback_a[b]_20240101110000_daily") (Returned 0);
       Launch (rsync_cmd_line [] "/home/" "/snap/snapback_a[b]_20240101110000_daily/")
         (Returned 0);
       Touched "/snap/snapback_a[b]_20240101110000_daily/";
       Touched "/snap/snapback_a[b]_20240101110000_daily/_backup_20240101_110000"]
  ∧ generations "/snap" "a[b]" "daily"
      (fs (sync env_all_well "/home/" "/snap" "a[b]" "daily" [] bracket_world).2)
    = [os_path_join "/snap" (snapshot_name "ab" "20240101080000" "daily")].
Proof. vm_compute. repeat split; reflexivity. Qed.

